(** * Waveguide parameter calculator: materials.py and wg.py

    A shallow embedding of the two modules of the [waveguides] package and
    the properties of the package that are checked against it.

    Numbers.  Python [float]s (and the few [int] literals) are idealised as
    real numbers: rounding, overflow and signed zeros are not modelled, and
    the arguments a caller passes (dimensions, frequencies) are finite.  A
    Python [float] operation that raises does so in the model
    ([ZeroDivisionError], [ValueError]).  A NumPy operation never raises on a
    number: where IEEE arithmetic yields [nan] or an infinity the model yields
    [None], so a NumPy real is an [option R] and a NumPy complex an
    [option Cplx]; [None] stays [None] through every later operation, as no
    divisor of the package can be non-finite.

    Frequencies.  The [freq] argument of a query is a Python [float]
    ([Scalar]) or a one-dimensional [ndarray] of floats ([Array]); the
    operators of a query body are resolved on the type their operands then
    have (Python [float], NumPy scalar, NumPy array).

    Strings are sequences of ASCII characters; [str.lower] maps [A-Z] to
    [a-z] and leaves every other character alone.

    The physical constants [scipy.constants.mu_0] and
    [scipy.constants.epsilon_0] belong to SciPy, whose value depends on the
    installed release; they are parameters of the development. *)

From Stdlib Require Import Reals Lra List String Ascii Bool Arith Lia.
Import ListNotations.

Open Scope string_scope.
Open Scope R_scope.

(** ** Exceptions and the two effects of the package *)

(** The built-in exceptions the two modules can raise.  Neither module
    defines an exception class of its own. *)
Inductive exn : Type :=
| ValueError          (* math domain error *)
| ZeroDivisionError   (* float division by zero *)
| AttributeError      (* 'NoneType' object has no attribute ... *)
| TypeError.          (* unsupported operand type(s) *)

(** The class name of an exception, as [type(e).__name__] gives it. *)
Definition exn_name (e : exn) : string :=
  match e with
  | ValueError => "ValueError"
  | ZeroDivisionError => "ZeroDivisionError"
  | AttributeError => "AttributeError"
  | TypeError => "TypeError"
  end.

(** A computation that returns or raises. *)
Definition res (A : Type) : Type := (exn + A)%type.

Definition res_bind {A B : Type} (m : res A) (k : A -> res B) : res B :=
  match m with
  | inl e => inl e
  | inr a => k a
  end.

(** A computation that prints lines to standard output and then returns or
    raises: the outcome paired with the lines printed, oldest first. *)
Definition Py (A : Type) : Type := (res A * list string)%type.

Definition py_ret {A : Type} (a : A) : Py A := (inr a, []).

Definition py_lift {A : Type} (m : res A) : Py A := (m, []).

Definition py_print (line : string) : Py unit := (inr tt, [line]).

Definition py_bind {A B : Type} (m : Py A) (k : A -> Py B) : Py B :=
  match m with
  | (inl e, out) => (inl e, out)
  | (inr a, out) => let (r, out') := k a in (r, (out ++ out')%list)
  end.

(** A method of an object of class [S]: it receives the object, returns or
    raises, and hands the object on in the state its assignments left it. *)
Definition Meth (S A : Type) : Type := S -> res A * S.

Definition meth_self {S : Type} : Meth S S := fun self => (inr self, self).

Definition meth_lift {S A : Type} (m : res A) : Meth S A := fun self => (m, self).

Definition meth_bind {S A B : Type} (m : Meth S A) (k : A -> Meth S B) : Meth S B :=
  fun self =>
    match m self with
    | (inl e, self') => (inl e, self')
    | (inr a, self') => k a self'
    end.

Declare Scope res_scope.
Delimit Scope res_scope with res.
Notation "x <- m ;; k" := (res_bind m (fun x => k))
  (at level 61, m at next level, right associativity) : res_scope.

Notation "' pat <- m ;; k" := (res_bind m (fun x => match x with pat => k end))
  (at level 61, pat pattern, m at next level, right associativity) : res_scope.

Declare Scope py_scope.
Delimit Scope py_scope with py.
Notation "x <- m ;; k" := (py_bind m (fun x => k))
  (at level 61, m at next level, right associativity) : py_scope.
Notation "m ;;; k" := (py_bind m (fun _ => k))
  (at level 61, right associativity) : py_scope.

Declare Scope meth_scope.
Delimit Scope meth_scope with meth.
Notation "x <- m ;; k" := (meth_bind m (fun x => k))
  (at level 61, m at next level, right associativity) : meth_scope.

(** ** Strings *)

(** [str.lower] on one ASCII character. *)
Definition lower_ascii (c : ascii) : ascii :=
  let n := nat_of_ascii c in
  if (65 <=? n)%nat && (n <=? 90)%nat then ascii_of_nat (n + 32) else c.

(** [str.lower]. *)
Fixpoint lower (s : string) : string :=
  match s with
  | EmptyString => EmptyString
  | String c s' => String (lower_ascii c) (lower s')
  end.

(** ** Complex numbers *)

(** A Python [complex] or the finite value of a [numpy.complex128]:
    real and imaginary part. *)
Record Cplx : Type := complex { real : R; imag : R }.

(** The literal [1j]. *)
Definition Ci : Cplx := complex 0 1.

(** The conversion of a [float] operand in mixed arithmetic. *)
Definition of_real (x : R) : Cplx := complex x 0.

Definition Cadd (z1 z2 : Cplx) : Cplx :=
  complex (real z1 + real z2) (imag z1 + imag z2).

Definition Cmul (z1 z2 : Cplx) : Cplx :=
  complex (real z1 * real z2 - imag z1 * imag z2)
          (real z1 * imag z2 + imag z1 * real z2).

(** The quotient, meaningful when [z2] is not zero. *)
Definition Cdiv (z1 z2 : Cplx) : Cplx :=
  let d := real z2 * real z2 + imag z2 * imag z2 in
  complex ((real z1 * real z2 + imag z1 * imag z2) / d)
          ((imag z1 * real z2 - real z1 * imag z2) / d).

Definition Cabs (z : Cplx) : R := sqrt (real z * real z + imag z * imag z).

(** The principal square root: the root in the closed right half plane,
    the one with a non-negative imaginary part on the negative real axis. *)
Definition Csqrt (z : Cplx) : Cplx :=
  let s := if Rlt_dec (imag z) 0 then -1 else 1 in
  complex (sqrt ((Cabs z + real z) / 2)) (s * sqrt ((Cabs z - real z) / 2)).

Definition Czero_dec (z : Cplx) : {z = complex 0 0} + {z <> complex 0 0}.
Proof.
  destruct z as [x y].
  destruct (Req_dec_T x 0) as [Hx | Hx].
  - destruct (Req_dec_T y 0) as [Hy | Hy].
    + left. now subst.
    + right. intros E. injection E as _ E. contradiction.
  - right. intros E. injection E as E _. contradiction.
Defined.

(** ** Python [float] operations that can raise *)

(** [x / y] on two Python floats. *)
Definition pydiv (x y : R) : res R :=
  if Req_dec_T y 0 then inl ZeroDivisionError else inr (x / y).

(** [math.log(x)]. *)
Definition math_log (x : R) : res R :=
  if Rle_dec x 0 then inl ValueError else inr (ln x).

(** The inverse hyperbolic cosine on [1, +oo). *)
Definition acosh (x : R) : R := ln (x + sqrt (x * x - 1)).

(** [math.acosh(x)]; [np.math] is the same module [math]. *)
Definition math_acosh (x : R) : res R :=
  if Rlt_dec x 1 then inl ValueError else inr (acosh x).

(** [x * y] where [y] is a number or [None]. *)
Definition pymul_opt (x : R) (y : option R) : res R :=
  match y with
  | Some v => inr (x * v)
  | None => inl TypeError
  end.

(** [z.real] and [z.imag] where [z] is a complex number or [None]. *)
Definition attr_real (z : option Cplx) : res R :=
  match z with
  | Some v => inr (real v)
  | None => inl AttributeError
  end.

Definition attr_imag (z : option Cplx) : res R :=
  match z with
  | Some v => inr (imag v)
  | None => inl AttributeError
  end.

(** ** NumPy values *)

(** What a frequency argument and every quantity computed from it is: one
    number, or a one-dimensional [ndarray]. *)
Inductive nd (A : Type) : Type :=
| Scalar (x : A)
| Array (xs : list A).

Arguments Scalar {A} x.
Arguments Array {A} xs.

(** A unary operation, or a binary one whose other operand is a Python
    number: element by element. *)
Definition nd_map {A B : Type} (f : A -> B) (x : nd A) : nd B :=
  match x with
  | Scalar a => Scalar (f a)
  | Array l => Array (map f l)
  end.

Fixpoint zip_with {A B T : Type} (f : A -> B -> T) (l1 : list A) (l2 : list B)
  : list T :=
  match l1, l2 with
  | x :: l1', y :: l2' => f x y :: zip_with f l1' l2'
  | _, _ => []
  end.

(** A binary operation on two NumPy operands, with broadcasting: a scalar or
    an array of one element is stretched over the other operand, two arrays
    of different lengths otherwise do not combine. *)
Definition nd_map2 {A B T : Type} (f : A -> B -> T) (x : nd A) (y : nd B)
  : res (nd T) :=
  match x, y with
  | Scalar a, Scalar b => inr (Scalar (f a b))
  | Scalar a, Array l2 => inr (Array (map (f a) l2))
  | Array l1, Scalar b => inr (Array (map (fun a => f a b) l1))
  | Array l1, Array l2 =>
      if (List.length l1 =? List.length l2)%nat then inr (Array (zip_with f l1 l2))
      else match l1, l2 with
           | [a], _ => inr (Array (map (f a) l2))
           | _, [b] => inr (Array (map (fun a => f a b) l1))
           | _, _ => inl ValueError
           end
  end.

(** [np.sqrt] on a real: [nan] below zero. *)
Definition np_sqrt (x : option R) : option R :=
  match x with
  | Some v => if Rlt_dec v 0 then None else Some (sqrt v)
  | None => None
  end.

(** [x * y], [x] a NumPy real and [y] a Python float. *)
Definition np_mul (x : option R) (y : R) : option R :=
  option_map (fun v => v * y) x.

(** [y * x], the Python float first. *)
Definition np_rmul (y : R) (x : option R) : option R :=
  option_map (fun v => y * v) x.

(** [x / y], [x] a NumPy real and [y] a Python float: a zero divisor gives
    [nan] or an infinity and a warning, no exception. *)
Definition np_div (x : option R) (y : R) : option R :=
  match x with
  | Some v => if Req_dec_T y 0 then None else Some (v / y)
  | None => None
  end.

(** [x + z], [x] a NumPy real and [z] a complex number. *)
Definition np_add_c (x : option R) (z : Cplx) : option Cplx :=
  option_map (fun v => Cadd (of_real v) z) x.

(** [z1 * z2] on two NumPy complex numbers. *)
Definition np_cmul (z1 z2 : option Cplx) : option Cplx :=
  match z1, z2 with
  | Some u, Some v => Some (Cmul u v)
  | _, _ => None
  end.

(** [z1 / z2] on two NumPy complex numbers: a zero divisor gives a value
    with [nan] or infinite parts, no exception. *)
Definition np_cdiv (z1 z2 : option Cplx) : option Cplx :=
  match z1, z2 with
  | Some u, Some v => if Czero_dec v then None else Some (Cdiv u v)
  | _, _ => None
  end.

(** [np.sqrt] on a complex number. *)
Definition np_csqrt (z : option Cplx) : option Cplx := option_map Csqrt z.

(** [z.real] and [z.imag] on a NumPy complex number. *)
Definition np_real (z : option Cplx) : option R := option_map real z.

Definition np_imag (z : option Cplx) : option R := option_map imag z.

(** [x / y] where [x] derives from the frequency argument and [y] is a
    Python float.  A scalar frequency is a Python float and so is [x]: the
    division raises on a zero divisor.  An array divides element by element
    as NumPy does. *)
Definition true_div (x : nd R) (y : R) : res (nd (option R)) :=
  match x with
  | Scalar v => (q <- pydiv v y ;; inr (Scalar (Some q)))%res
  | Array l => inr (Array (map (fun v => np_div (Some v) y) l))
  end.

(** [1j * w * x], [x] a Python float. *)
Definition jw_times (w : nd R) (x : R) : nd Cplx :=
  nd_map (fun v => Cmul (Cmul Ci (of_real v)) (of_real x)) w.

(** ** materials.py *)

Module materials.
Section Materials.

(** [scipy.constants.epsilon_0], the vacuum permittivity. *)
Variable epsilon_0 : R.

(** [cond(material)]: the conductivity of the material at 20 deg C.  The
    final [else] prints and falls off the end of the function, which
    returns [None]. *)
Definition cond (material : string) : Py (option R) :=
  let m := lower material in
  if (m =? "cu") || (m =? "copper") then py_ret (Some 5.813e7)
  else if (m =? "pec") || (m =? "perfect_electric_conductor") then py_ret (Some 1e30)
  else if (m =? "au") || (m =? "gold") then py_ret (Some 4.098e7)
  else if (m =? "al") || (m =? "aluminium") || (m =? "aluminum") then py_ret (Some 3.816e7)
  else if (m =? "ag") || (m =? "silver") then py_ret (Some 6.173e7)
  else if (m =? "brass") then py_ret (Some 2.564e7)
  else if (m =? "bronze") then py_ret (Some 1.00e7)
  else if (m =? "chromium") || (m =? "cr") then py_ret (Some 3.846e7)
  else if (m =? "water") || (m =? "h2o") then py_ret (Some 2e-4)
  else if (m =? "germanium") || (m =? "ge") then py_ret (Some 2.2e6)
  else if (m =? "graphite") then py_ret (Some 7e4)
  else if (m =? "iron") || (m =? "fe") then py_ret (Some 1.03e7)
  else if (m =? "mercury") || (m =? "hg") then py_ret (Some 1.04e6)
  else if (m =? "lead") || (m =? "pb") then py_ret (Some 4.56e6)
  else if (m =? "nichrome") then py_ret (Some 1.0e6)
  else if (m =? "nickel") || (m =? "ni") then py_ret (Some 1.449e7)
  else if (m =? "platinum") || (m =? "pt") then py_ret (Some 9.52e6)
  else if (m =? "seawater") then py_ret (Some 4)
  else if (m =? "silicon") || (m =? "si") then py_ret (Some 4.4e-4)
  else if (m =? "steel_silicon") then py_ret (Some 2e6)
  else if (m =? "steel_stainless") then py_ret (Some 1.1e6)
  else if (m =? "solder") then py_ret (Some 7e6)
  else if (m =? "tungsten") || (m =? "w") then py_ret (Some 1.825e7)
  else if (m =? "zinc") || (m =? "zn") then py_ret (Some 1.67e7)
  else
    (py_print ("Error: material '" ++ material ++
               "' is currently not supported in function 'cond(material)'.") ;;;
     py_ret None)%py.

(** [dielec_const(material)]: the complex dielectric constant of the
    material, [complex(re, im)] with a negative imaginary part for a lossy
    dielectric.  Unknown names print and return [None] as in [cond]. *)
Definition dielec_const (material : string) : Py (option Cplx) :=
  let eps_0 := epsilon_0 in
  let m := lower material in
  if (m =? "pe") || (m =? "polyethylene")
  then py_ret (Some (complex (2.25 * eps_0) (- 2.25 * eps_0 * 0.0004)))
  else if (m =? "vacuum") || (m =? "vac")
  then py_ret (Some (complex (1 * eps_0) 0))
  else if (m =? "gaas") || (m =? "galliumarsenide")
  then py_ret (Some (complex (13 * eps_0) (- 13 * eps_0 * 0.006)))
  else if (m =? "teflon") || (m =? "ptfe")
  then py_ret (Some (complex (2.08 * eps_0) (- 2.08 * eps_0 * 0.0004)))
  else if (m =? "silicon") || (m =? "si")
  then py_ret (Some (complex (11.9 * eps_0) (- 11.9 * eps_0 * 0.004)))
  else if (m =? "polystyrene") || (m =? "ps")
  then py_ret (Some (complex (2.54 * eps_0) (- 2.54 * eps_0 * 0.00033)))
  else
    (py_print ("Error: material '" ++ material ++
               "' is currently not supported in function 'dielec_const(material)'.") ;;;
     py_ret None)%py.

End Materials.
End materials.

(** ** wg.py *)

(** The values of the locals [w], [Rs], [R] and [G] of a query. *)
Definition locals : Type :=
  (nd R * nd (option R) * nd (option R) * nd (option R))%type.

(** [np.sqrt((R+1j*w*L)/(G+1j*w*C))], the last statement of every
    [get_z0]. *)
Definition z0_of (l : locals) (L C : R) : res (nd (option Cplx)) :=
  (let '(w, _, R, G) := l in
   num <- nd_map2 np_add_c R (jw_times w L) ;;
   den <- nd_map2 np_add_c G (jw_times w C) ;;
   q <- nd_map2 np_cdiv num den ;;
   inr (nd_map np_csqrt q))%res.

(** [np.sqrt((R+1j*w*L)*(G+1j*w*C))], the last statement of every
    [get_gamma]. *)
Definition gamma_of (l : locals) (L C : R) : res (nd (option Cplx)) :=
  (let '(w, _, R, G) := l in
   num <- nd_map2 np_add_c R (jw_times w L) ;;
   den <- nd_map2 np_add_c G (jw_times w C) ;;
   p <- nd_map2 np_cmul num den ;;
   inr (nd_map np_csqrt p))%res.

(** *** class COAX: the coaxial waveguide *)

Module COAX.

(** The attributes [__init__] assigns; [sigma] and [eps] hold whatever the
    two material functions returned, [None] included. *)
Record t : Type := mk {
  a : R;
  b : R;
  sigma : option R;
  eps : option Cplx;
  mu : R;
  L : R;
  C : R
}.

Section Class.

(** [scipy.constants.mu_0] and [scipy.constants.epsilon_0]. *)
Variables mu_0 epsilon_0 : R.

(** [COAX(a, b, metal, dielec)]. *)
Definition __init__ (a b : R) (metal dielec : string) : Py t :=
  (sigma <- materials.cond metal ;;
   eps <- materials.dielec_const epsilon_0 dielec ;;
   py_lift (
     let mu := 1 * mu_0 in
     (* self.L = self.mu*math.log(b/a)/(2*math.pi) *)
     q <- pydiv b a ;;
     lg <- math_log q ;;
     let L := mu * lg / (2 * PI) in
     (* self.C = 2*math.pi*self.eps.real/math.log(b/a) *)
     er <- attr_real eps ;;
     q' <- pydiv b a ;;
     lg' <- math_log q' ;;
     C <- pydiv (2 * PI * er) lg' ;;
     inr (mk a b sigma eps mu L C))%res)%py.

(** The assignments to [w], [Rs], [R] and [G] that open both [get_z0] and
    [get_gamma]. *)
Definition rlgc (self : t) (freq : nd R) : res locals :=
  ((* w = 2*np.pi*freq *)
   let w := nd_map (fun f => 2 * PI * f) freq in
   (* Rs = np.sqrt(w*self.mu/(2*self.sigma)) *)
   s2 <- pymul_opt 2 (sigma self) ;;
   x <- true_div (nd_map (fun v => v * mu self) w) s2 ;;
   let Rs := nd_map np_sqrt x in
   (* R = Rs*(1/self.a + 1/self.b)/(2*math.pi) *)
   ia <- pydiv 1 (a self) ;;
   ib <- pydiv 1 (b self) ;;
   let R := nd_map (fun r => np_div (np_mul r (ia + ib)) (2 * PI)) Rs in
   (* G = 2*math.pi*w*self.eps.imag/math.log(self.b/self.a) *)
   ei <- attr_imag (eps self) ;;
   q <- pydiv (b self) (a self) ;;
   lg <- math_log q ;;
   G <- true_div (nd_map (fun v => 2 * PI * v * ei) w) lg ;;
   inr (w, Rs, R, G))%res.

Definition get_z0 (freq : nd R) : Meth t (nd (option Cplx)) :=
  (self <- meth_self ;;
   meth_lift (l <- rlgc self freq ;; z0_of l (L self) (C self))%res)%meth.

Definition get_gamma (freq : nd R) : Meth t (nd (option Cplx)) :=
  (self <- meth_self ;;
   meth_lift (l <- rlgc self freq ;; gamma_of l (L self) (C self))%res)%meth.

Definition get_alpha (freq : nd R) : Meth t (nd (option R)) :=
  (g <- get_gamma freq ;; meth_lift (inr (nd_map np_real g)))%meth.

Definition get_beta (freq : nd R) : Meth t (nd (option R)) :=
  (g <- get_gamma freq ;; meth_lift (inr (nd_map np_imag g)))%meth.

End Class.
End COAX.

(** *** class TWWG: the two-wire waveguide *)

Module TWWG.

Record t : Type := mk {
  S : R;
  a : R;
  sigma : option R;
  eps : option Cplx;
  mu : R;
  L : R;
  C : R
}.

Section Class.

Variables mu_0 epsilon_0 : R.

(** [TWWG(S, a, metal, dielec)]. *)
Definition __init__ (S a : R) (metal dielec : string) : Py t :=
  (sigma <- materials.cond metal ;;
   eps <- materials.dielec_const epsilon_0 dielec ;;
   py_lift (
     let mu := 1 * mu_0 in
     (* self.L = self.mu*math.acosh(S/(2*a))/math.pi *)
     q <- pydiv S (2 * a) ;;
     ac <- math_acosh q ;;
     let L := mu * ac / PI in
     (* self.C = math.pi*self.eps.real/math.acosh(S/(2*a)) *)
     er <- attr_real eps ;;
     q' <- pydiv S (2 * a) ;;
     ac' <- math_acosh q' ;;
     C <- pydiv (PI * er) ac' ;;
     inr (mk S a sigma eps mu L C))%res)%py.

Definition rlgc (self : t) (freq : nd R) : res locals :=
  ((* w = 2*np.pi*freq *)
   let w := nd_map (fun f => 2 * PI * f) freq in
   (* Rs = np.sqrt(w*self.mu/(2*self.sigma)) *)
   s2 <- pymul_opt 2 (sigma self) ;;
   x <- true_div (nd_map (fun v => v * mu self) w) s2 ;;
   let Rs := nd_map np_sqrt x in
   (* R = Rs/(np.pi*self.a) *)
   let R := nd_map (fun r => np_div r (PI * a self)) Rs in
   (* G = (np.pi*w*self.eps.imag)/np.math.acosh(self.S/(2*self.a)) *)
   ei <- attr_imag (eps self) ;;
   q <- pydiv (S self) (2 * a self) ;;
   ac <- math_acosh q ;;
   G <- true_div (nd_map (fun v => PI * v * ei) w) ac ;;
   inr (w, Rs, R, G))%res.

Definition get_z0 (freq : nd R) : Meth t (nd (option Cplx)) :=
  (self <- meth_self ;;
   meth_lift (l <- rlgc self freq ;; z0_of l (L self) (C self))%res)%meth.

Definition get_gamma (freq : nd R) : Meth t (nd (option Cplx)) :=
  (self <- meth_self ;;
   meth_lift (l <- rlgc self freq ;; gamma_of l (L self) (C self))%res)%meth.

Definition get_alpha (freq : nd R) : Meth t (nd (option R)) :=
  (g <- get_gamma freq ;; meth_lift (inr (nd_map np_real g)))%meth.

Definition get_beta (freq : nd R) : Meth t (nd (option R)) :=
  (g <- get_gamma freq ;; meth_lift (inr (nd_map np_imag g)))%meth.

End Class.
End TWWG.

(** *** class PPWG: the parallel plate waveguide *)

Module PPWG.

Record t : Type := mk {
  S : R;
  T : R;
  sigma : option R;
  eps : option Cplx;
  mu : R;
  L : R;
  C : R
}.

Section Class.

Variables mu_0 epsilon_0 : R.

(** [PPWG(S, T, metal, dielec)]. *)
Definition __init__ (S T : R) (metal dielec : string) : Py t :=
  (sigma <- materials.cond metal ;;
   eps <- materials.dielec_const epsilon_0 dielec ;;
   py_lift (
     let mu := 1 * mu_0 in
     (* self.L = self.mu*S/T *)
     L <- pydiv (mu * S) T ;;
     (* self.C = self.eps.real*T/S *)
     er <- attr_real eps ;;
     C <- pydiv (er * T) S ;;
     inr (mk S T sigma eps mu L C))%res)%py.

Definition rlgc (self : t) (freq : nd R) : res locals :=
  ((* w = 2*np.pi*freq *)
   let w := nd_map (fun f => 2 * PI * f) freq in
   (* Rs = np.sqrt(w*self.mu/(2*self.sigma)) *)
   s2 <- pymul_opt 2 (sigma self) ;;
   x <- true_div (nd_map (fun v => v * mu self) w) s2 ;;
   let Rs := nd_map np_sqrt x in
   (* R = 2*Rs/self.T *)
   let R := nd_map (fun r => np_div (np_rmul 2 r) (T self)) Rs in
   (* G = w*self.eps.imag*self.T/self.S *)
   ei <- attr_imag (eps self) ;;
   G <- true_div (nd_map (fun v => v * ei * T self) w) (S self) ;;
   inr (w, Rs, R, G))%res.

Definition get_z0 (freq : nd R) : Meth t (nd (option Cplx)) :=
  (self <- meth_self ;;
   meth_lift (l <- rlgc self freq ;; z0_of l (L self) (C self))%res)%meth.

Definition get_gamma (freq : nd R) : Meth t (nd (option Cplx)) :=
  (self <- meth_self ;;
   meth_lift (l <- rlgc self freq ;; gamma_of l (L self) (C self))%res)%meth.

Definition get_alpha (freq : nd R) : Meth t (nd (option R)) :=
  (g <- get_gamma freq ;; meth_lift (inr (nd_map np_real g)))%meth.

Definition get_beta (freq : nd R) : Meth t (nd (option R)) :=
  (g <- get_gamma freq ;; meth_lift (inr (nd_map np_imag g)))%meth.

End Class.
End PPWG.

(** ** Vocabulary of the properties *)

(** The names the [if]/[elif] chain of [cond] compares with: the conductor
    table, aliases included. *)
Definition cond_names : list string :=
  [ "cu"; "copper"; "pec"; "perfect_electric_conductor"; "au"; "gold";
    "al"; "aluminium"; "aluminum"; "ag"; "silver"; "brass"; "bronze";
    "chromium"; "cr"; "water"; "h2o"; "germanium"; "ge"; "graphite";
    "iron"; "fe"; "mercury"; "hg"; "lead"; "pb"; "nichrome"; "nickel"; "ni";
    "platinum"; "pt"; "seawater"; "silicon"; "si"; "steel_silicon";
    "steel_stainless"; "solder"; "tungsten"; "w"; "zinc"; "zn" ].

(** The names [dielec_const] compares with: the dielectric table. *)
Definition dielec_names : list string :=
  [ "pe"; "polyethylene"; "vacuum"; "vac"; "gaas"; "galliumarsenide";
    "teflon"; "ptfe"; "silicon"; "si"; "polystyrene"; "ps" ].

(** A name is recognised by a table when its lower-case form is an entry. *)
Definition recognised (table : list string) (name : string) : Prop :=
  In (lower name) table.

(** The line either function prints for a name it does not recognise. *)
Definition not_supported (name func : string) : string :=
  "Error: material '" ++ name ++ "' is currently not supported in function '"
  ++ func ++ "'.".

(** A computation raises an exception of the class called [cls]. *)
Definition raises {A : Type} (c : Py A) (cls : string) : Prop :=
  exists e, fst c = inl e /\ exn_name e = cls.

(** What [__init__] establishes of a coaxial object: the quotient [b/a] is
    defined and its logarithm is a non-zero number, the dielectric was
    resolved, the conductivity is positive when it was, and [L] and [C] have
    the values of their closed forms. *)
Definition COAX_inv (mu_0 : R) (self : COAX.t) : Prop :=
  COAX.a self <> 0 /\
  0 < COAX.b self / COAX.a self /\
  ln (COAX.b self / COAX.a self) <> 0 /\
  COAX.mu self = 1 * mu_0 /\
  COAX.L self = COAX.mu self * ln (COAX.b self / COAX.a self) / (2 * PI) /\
  (exists z, COAX.eps self = Some z /\
     COAX.C self = 2 * PI * real z / ln (COAX.b self / COAX.a self)) /\
  (forall s, COAX.sigma self = Some s -> 0 < s).

Definition TWWG_inv (mu_0 : R) (self : TWWG.t) : Prop :=
  2 * TWWG.a self <> 0 /\
  1 <= TWWG.S self / (2 * TWWG.a self) /\
  acosh (TWWG.S self / (2 * TWWG.a self)) <> 0 /\
  TWWG.mu self = 1 * mu_0 /\
  TWWG.L self = TWWG.mu self * acosh (TWWG.S self / (2 * TWWG.a self)) / PI /\
  (exists z, TWWG.eps self = Some z /\
     TWWG.C self = PI * real z / acosh (TWWG.S self / (2 * TWWG.a self))) /\
  (forall s, TWWG.sigma self = Some s -> 0 < s).

Definition PPWG_inv (mu_0 : R) (self : PPWG.t) : Prop :=
  PPWG.S self <> 0 /\
  PPWG.T self <> 0 /\
  PPWG.mu self = 1 * mu_0 /\
  PPWG.L self = PPWG.mu self * PPWG.S self / PPWG.T self /\
  (exists z, PPWG.eps self = Some z /\
     PPWG.C self = real z * PPWG.T self / PPWG.S self) /\
  (forall s, PPWG.sigma self = Some s -> 0 < s).

(** The values a query works with at one frequency [f], on an object
    whose conductivity is the number [s] and whose permittivity is [z]:
    the surface resistance, then [R] and [G] class by class. *)
Definition Rs_at (mu s f : R) : option R :=
  np_sqrt (Some (2 * PI * f * mu / (2 * s))).

Definition COAX_R_at (self : COAX.t) (s f : R) : option R :=
  np_div (np_mul (Rs_at (COAX.mu self) s f)
                 (1 / COAX.a self + 1 / COAX.b self)) (2 * PI).

Definition COAX_G_at (self : COAX.t) (z : Cplx) (f : R) : R :=
  2 * PI * (2 * PI * f) * imag z / ln (COAX.b self / COAX.a self).

Definition TWWG_R_at (self : TWWG.t) (s f : R) : option R :=
  np_div (Rs_at (TWWG.mu self) s f) (PI * TWWG.a self).

Definition TWWG_G_at (self : TWWG.t) (z : Cplx) (f : R) : R :=
  PI * (2 * PI * f) * imag z / acosh (TWWG.S self / (2 * TWWG.a self)).

Definition PPWG_R_at (self : PPWG.t) (s f : R) : option R :=
  np_div (np_rmul 2 (Rs_at (PPWG.mu self) s f)) (PPWG.T self).

Definition PPWG_G_at (self : PPWG.t) (z : Cplx) (f : R) : R :=
  2 * PI * f * imag z * PPWG.T self / PPWG.S self.

(** [R + 1j*w*x] at one frequency. *)
Definition plus_jw (r : option R) (w x : R) : option Cplx :=
  np_add_c r (Cmul (Cmul Ci (of_real w)) (of_real x)).

(** The impedance and the propagation constant at one angular frequency
    [w], from the values of [R] and [G] there. *)
Definition z0_at (w : R) (Rv Gv : option R) (L C : R) : option Cplx :=
  np_csqrt (np_cdiv (plus_jw Rv w L) (plus_jw Gv w C)).

Definition gamma_at (w : R) (Rv Gv : option R) (L C : R) : option Cplx :=
  np_csqrt (np_cmul (plus_jw Rv w L) (plus_jw Gv w C)).

(** A query answers an array of frequencies element by element: its answer
    is an array that pairs off, in order, with the answers to the single
    frequencies; and when it raises, it raises what every single frequency
    raises. *)
Definition pointwise {S A : Type} (q : nd R -> Meth S (nd A)) (self : S)
           (fs : list R) : Prop :=
  match fst (q (Array fs) self) with
  | inr (Array rs) =>
      Forall2 (fun f r => fst (q (Scalar f) self) = inr (Scalar r)) fs rs
  | inr (Scalar _) => False
  | inl e => forall f, fst (q (Scalar f) self) = inl e
  end.

Definition res_map {A B : Type} (f : A -> B) (r : res A) : res B :=
  match r with
  | inl e => inl e
  | inr a => inr (f a)
  end.

(** The shape the four queries have in every class, over the class's own
    [rlgc] and its attributes [L] and [C]. *)
Definition query_z0 {S : Type} (rlgc : S -> nd R -> res locals) (L C : S -> R)
  : nd R -> Meth S (nd (option Cplx)) :=
  fun freq =>
    (self <- meth_self ;;
     meth_lift (l <- rlgc self freq ;; z0_of l (L self) (C self))%res)%meth.

Definition query_gamma {S : Type} (rlgc : S -> nd R -> res locals) (L C : S -> R)
  : nd R -> Meth S (nd (option Cplx)) :=
  fun freq =>
    (self <- meth_self ;;
     meth_lift (l <- rlgc self freq ;; gamma_of l (L self) (C self))%res)%meth.

Definition query_part {S : Type} (part : option Cplx -> option R)
           (get_gamma : nd R -> Meth S (nd (option Cplx)))
  : nd R -> Meth S (nd (option R)) :=
  fun freq => (g <- get_gamma freq ;; meth_lift (inr (nd_map part g)))%meth.

(** A method hands the object back as it received it. *)
Definition read_only {S A : Type} (q : Meth S A) : Prop :=
  forall self, snd (q self) = self.

(** A second call, on the object the first call left, gives what the first
    call gave. *)
Definition repeatable {S A : Type} (q : Meth S A) : Prop :=
  forall self, fst (q (snd (q self))) = fst (q self).

(** A query returns an array as long as the array of frequencies. *)
Definition answers_array {S A : Type} (q : nd R -> Meth S (nd A)) (self : S)
           (fs : list R) : Prop :=
  exists rs, fst (q (Array fs) self) = inr (Array rs) /\
             List.length rs = List.length fs.

(** [get_alpha] and [get_beta] give the real and the imaginary part of what
    [get_gamma] gives, and raise what it raises. *)
Definition parts_of_gamma {S : Type}
           (get_gamma : nd R -> Meth S (nd (option Cplx)))
           (get_alpha get_beta : nd R -> Meth S (nd (option R))) : Prop :=
  forall freq self,
    fst (get_alpha freq self)
    = res_map (nd_map np_real) (fst (get_gamma freq self)) /\
    fst (get_beta freq self)
    = res_map (nd_map np_imag) (fst (get_gamma freq self)).

(** At the frequency [f] the locals [R] and [G] are finite numbers, and
    [get_gamma] gives the principal square root of (R + jwL)(G + jwC) with
    w = 2 pi f, of which [get_alpha] and [get_beta] give the two parts. *)
Definition principal_root {S : Type} (rlgc : S -> nd R -> res locals)
           (L C : S -> R)
           (get_gamma : nd R -> Meth S (nd (option Cplx)))
           (get_alpha get_beta : nd R -> Meth S (nd (option R)))
           (self : S) (f : R) : Prop :=
  exists Rs Rv Gv,
    rlgc self (Scalar f)
    = inr (Scalar (2 * PI * f), Rs, Scalar (Some Rv), Scalar (Some Gv)) /\
    let w := 2 * PI * f in
    let p := Cmul (complex Rv (w * L self)) (complex Gv (w * C self)) in
    let g := Csqrt p in
    fst (get_gamma (Scalar f) self) = inr (Scalar (Some g)) /\
    fst (get_alpha (Scalar f) self) = inr (Scalar (Some (real g))) /\
    fst (get_beta (Scalar f) self) = inr (Scalar (Some (imag g))) /\
    Cmul g g = p /\ 0 <= real g /\ (real g = 0 -> 0 <= imag g).

(** At frequency 0 the locals [w], [Rs], [R] and [G] are all 0, the divisor
    G + jwC is the complex zero, and [get_z0] gives a value that is not a
    finite complex number. *)
Definition zero_over_zero {S : Type} (rlgc : S -> nd R -> res locals)
           (C : S -> R) (get_z0 : nd R -> Meth S (nd (option Cplx)))
           (self : S) : Prop :=
  rlgc self (Scalar 0)
  = inr (Scalar 0, Scalar (Some 0), Scalar (Some 0), Scalar (Some 0)) /\
  plus_jw (Some 0) 0 (C self) = Some (complex 0 0) /\
  fst (get_z0 (Scalar 0) self) = inr (Scalar None).

(** The objects the constructors return. *)
Definition COAX_built (mu_0 epsilon_0 : R) (self : COAX.t) : Prop :=
  exists a b metal dielec,
    fst (COAX.__init__ mu_0 epsilon_0 a b metal dielec) = inr self.

Definition TWWG_built (mu_0 epsilon_0 : R) (self : TWWG.t) : Prop :=
  exists S a metal dielec,
    fst (TWWG.__init__ mu_0 epsilon_0 S a metal dielec) = inr self.

Definition PPWG_built (mu_0 epsilon_0 : R) (self : PPWG.t) : Prop :=
  exists S T metal dielec,
    fst (PPWG.__init__ mu_0 epsilon_0 S T metal dielec) = inr self.

(** The dielectric table as the design document lists it: the names of a
    material, its relative permittivity and its loss tangent. *)
Definition dielectric_table : list (list string * (R * R)) :=
  [ (["pe"; "polyethylene"], (2.25, 0.0004));
    (["vacuum"; "vac"], (1, 0));
    (["gaas"; "galliumarsenide"], (13, 0.006));
    (["teflon"; "ptfe"], (2.08, 0.0004));
    (["silicon"; "si"], (11.9, 0.004));
    (["polystyrene"; "ps"], (2.54, 0.00033)) ].

(** At the frequency [f] the locals [R] and [G] are finite numbers and
    [get_z0] returns a finite complex number z0 in the closed right half
    plane with z0 z0 (G + jwC) = R + jwL, w = 2 pi f. *)
Definition impedance_equation {S : Type} (rlgc : S -> nd R -> res locals)
           (L C : S -> R) (get_z0 : nd R -> Meth S (nd (option Cplx)))
           (self : S) (f : R) : Prop :=
  exists Rs Rv Gv z0,
    rlgc self (Scalar f)
    = inr (Scalar (2 * PI * f), Rs, Scalar (Some Rv), Scalar (Some Gv)) /\
    fst (get_z0 (Scalar f) self) = inr (Scalar (Some z0)) /\
    Cmul (Cmul z0 z0) (complex Gv (2 * PI * f * C self))
    = complex Rv (2 * PI * f * L self) /\
    0 <= real z0.

(** At the frequency [f] the answers z0 of [get_z0] and g of [get_gamma]
    are finite and (z0 g)(z0 g) = (R + jwL)(R + jwL), w = 2 pi f. *)
Definition impedance_times_gamma {S : Type} (rlgc : S -> nd R -> res locals)
           (L : S -> R) (get_z0 get_gamma : nd R -> Meth S (nd (option Cplx)))
           (self : S) (f : R) : Prop :=
  exists Rs Rv Gv z0 g,
    rlgc self (Scalar f)
    = inr (Scalar (2 * PI * f), Rs, Scalar (Some Rv), Scalar (Some Gv)) /\
    fst (get_z0 (Scalar f) self) = inr (Scalar (Some z0)) /\
    fst (get_gamma (Scalar f) self) = inr (Scalar (Some g)) /\
    Cmul (Cmul z0 g) (Cmul z0 g)
    = Cmul (complex Rv (2 * PI * f * L self)) (complex Rv (2 * PI * f * L self)).

(** The four queries all raise [e] on the frequency argument [freq]. *)
Definition all_raise {S : Type}
           (get_z0 get_gamma : nd R -> Meth S (nd (option Cplx)))
           (get_alpha get_beta : nd R -> Meth S (nd (option R)))
           (self : S) (freq : nd R) (e : exn) : Prop :=
  fst (get_z0 freq self) = inl e /\ fst (get_gamma freq self) = inl e /\
  fst (get_alpha freq self) = inl e /\ fst (get_beta freq self) = inl e.

(** The four queries all return the non-finite value at the frequency [f],
    without raising. *)
Definition all_nan {S : Type}
           (get_z0 get_gamma : nd R -> Meth S (nd (option Cplx)))
           (get_alpha get_beta : nd R -> Meth S (nd (option R)))
           (self : S) (f : R) : Prop :=
  fst (get_z0 (Scalar f) self) = inr (Scalar None) /\
  fst (get_gamma (Scalar f) self) = inr (Scalar None) /\
  fst (get_alpha (Scalar f) self) = inr (Scalar None) /\
  fst (get_beta (Scalar f) self) = inr (Scalar None).


(** The 2018 CODATA values of the two constants, as recent SciPy releases
    define them; used where a property is run on concrete numbers. *)
Definition mu_0_2018 : R := 1.25663706212e-6.

Definition epsilon_0_2018 : R := 8.8541878128e-12.

(** ** Strings and the material tables *)

Lemma lower_ascii_idem (c : ascii) : lower_ascii (lower_ascii c) = lower_ascii c.
Proof. destruct c as [[] [] [] [] [] [] [] []]; reflexivity. Qed.

Lemma lower_idem (s : string) : lower (lower s) = lower s.
Proof.
  induction s as [| c s IH]; simpl.
  - reflexivity.
  - now rewrite lower_ascii_idem, IH.
Qed.

Lemma recognised_dec (table : list string) (name : string) :
  {recognised table name} + {~ recognised table name}.
Proof. apply in_dec, string_dec. Qed.

Lemma In_table (x : string) (table : list string) :
  existsb (String.eqb x) table = true -> In x table.
Proof.
  intros H. apply existsb_exists in H. destruct H as [y [Hy E]].
  apply String.eqb_eq in E. now subst.
Qed.

(** Every comparison of the chain fails on a name outside the table. *)
Ltac chain_fails H :=
  repeat match goal with
    | |- context [String.eqb ?x ?y] =>
        let E := fresh "E" in
        destruct (String.eqb_spec x y) as [E | E];
        [ exfalso; apply H; unfold recognised; rewrite E;
          apply In_table; reflexivity | ]
    end.

Lemma cond_unknown (name : string) :
  ~ recognised cond_names name ->
  materials.cond name = (inr None, [not_supported name "cond(material)"]).
Proof.
  intros H. unfold materials.cond. chain_fails H. reflexivity.
Qed.

Lemma cond_known (name : string) :
  recognised cond_names name ->
  exists v, 0 < v /\ materials.cond name = (inr (Some v), []).
Proof.
  unfold recognised, cond_names. intros H. unfold materials.cond.
  simpl in H.
  repeat (destruct H as [H | H];
          [ rewrite <- H; simpl; eexists; split; [| reflexivity]; lra | ]).
  contradiction.
Qed.

Lemma dielec_unknown (epsilon_0 : R) (name : string) :
  ~ recognised dielec_names name ->
  materials.dielec_const epsilon_0 name
  = (inr None, [not_supported name "dielec_const(material)"]).
Proof.
  intros H. unfold materials.dielec_const. chain_fails H. reflexivity.
Qed.

Lemma dielec_known (epsilon_0 : R) (name : string) :
  recognised dielec_names name ->
  exists er tand, 0 < er /\ 0 <= tand /\
    materials.dielec_const epsilon_0 name
    = (inr (Some (complex (er * epsilon_0) (- (er * epsilon_0 * tand)))), []).
Proof.
  unfold recognised, dielec_names. intros H. unfold materials.dielec_const.
  simpl in H.
  assert (T : forall er tand re im : R,
             0 < er -> 0 <= tand -> re = er * epsilon_0 ->
             im = - (er * epsilon_0 * tand) ->
             exists er' tand', 0 < er' /\ 0 <= tand' /\
               (inr (Some (complex re im)), @nil string)
               = (inr (A := exn) (Some (complex (er' * epsilon_0)
                                         (- (er' * epsilon_0 * tand')))), [])).
  { intros er tand re im H1 H2 -> ->. now exists er, tand. }
  repeat (destruct H as [H | H];
          [ rewrite <- H; simpl;
            first [ apply (T 2.25 0.0004); lra | apply (T 1 0); lra
                  | apply (T 13 0.006); lra | apply (T 2.08 0.0004); lra
                  | apply (T 11.9 0.004); lra | apply (T 2.54 0.00033); lra ]
          | ]).
  contradiction.
Qed.

(** ** Real and complex arithmetic *)

Lemma ln_ratio_pos (a b : R) : 0 < a -> a < b -> 0 < ln (b / a).
Proof.
  intros Ha Hab. rewrite <- ln_1. apply ln_increasing; [lra |].
  apply Rmult_lt_reg_r with a; [assumption |].
  unfold Rdiv. rewrite Rmult_assoc, Rinv_l; lra.
Qed.

Lemma acosh_1 : acosh 1 = 0.
Proof.
  unfold acosh. replace (1 * 1 - 1) with 0 by ring.
  rewrite sqrt_0, Rplus_0_r. apply ln_1.
Qed.

Lemma acosh_pos (x : R) : 1 < x -> 0 < acosh x.
Proof.
  intros Hx. unfold acosh. rewrite <- ln_1. apply ln_increasing; [lra |].
  pose proof (sqrt_pos (x * x - 1)). lra.
Qed.

Lemma Cabs_sqr (z : Cplx) : Cabs z * Cabs z = real z * real z + imag z * imag z.
Proof. unfold Cabs. apply sqrt_sqrt. nra. Qed.

Lemma Cabs_bounds (z : Cplx) : 0 <= Cabs z + real z /\ 0 <= Cabs z - real z.
Proof.
  pose proof (Cabs_sqr z) as H.
  assert (0 <= Cabs z) by apply sqrt_pos.
  split; nra.
Qed.

(** The square of the principal root is the number. *)
Lemma Csqrt_sqr (z : Cplx) : Cmul (Csqrt z) (Csqrt z) = z.
Proof.
  destruct (Cabs_bounds z) as [Hp Hm]. pose proof (Cabs_sqr z) as Hr.
  assert (Hu : sqrt ((Cabs z + real z) / 2) * sqrt ((Cabs z + real z) / 2)
               = (Cabs z + real z) / 2) by (apply sqrt_sqrt; lra).
  assert (Hv : sqrt ((Cabs z - real z) / 2) * sqrt ((Cabs z - real z) / 2)
               = (Cabs z - real z) / 2) by (apply sqrt_sqrt; lra).
  assert (Huv : sqrt ((Cabs z + real z) / 2) * sqrt ((Cabs z - real z) / 2)
                = Rabs (imag z) / 2).
  { rewrite <- sqrt_mult by lra.
    replace ((Cabs z + real z) / 2 * ((Cabs z - real z) / 2))
      with ((Rabs (imag z) / 2) * (Rabs (imag z) / 2)).
    - apply sqrt_square. pose proof (Rabs_pos (imag z)). lra.
    - assert (Rabs (imag z) * Rabs (imag z) = imag z * imag z).
      { unfold Rabs. destruct (Rcase_abs (imag z)); ring. }
      nra. }
  unfold Csqrt, Cmul. destruct z as [x y]. simpl in *.
  set (u := sqrt ((Cabs (complex x y) + x) / 2)) in *.
  set (v := sqrt ((Cabs (complex x y) - x) / 2)) in *.
  destruct (Rlt_dec y 0) as [Hy | Hy]; f_equal.
  - nra.
  - rewrite Rabs_left in Huv by assumption. nra.
  - nra.
  - rewrite Rabs_right in Huv by lra. nra.
Qed.

(** The principal root lies in the closed right half plane, and on the
    imaginary axis in its upper half. *)
Lemma Csqrt_principal (z : Cplx) :
  0 <= real (Csqrt z) /\ (real (Csqrt z) = 0 -> 0 <= imag (Csqrt z)).
Proof.
  split.
  - apply sqrt_pos.
  - unfold Csqrt. simpl. intros H0.
    destruct (Cabs_bounds z) as [Hp Hm]. pose proof (Cabs_sqr z) as Hr.
    apply sqrt_eq_0 in H0; [| lra].
    destruct (Rlt_dec (imag z) 0) as [Hy | Hy].
    + exfalso. nra.
    + rewrite Rmult_1_l. apply sqrt_pos.
Qed.

(** [R + 1j*w*x] on finite numbers. *)
Lemma add_jw (r w x : R) :
  Cadd (of_real r) (Cmul (Cmul Ci (of_real w)) (of_real x)) = complex r (w * x).
Proof. unfold Cadd, Cmul, Ci, of_real. simpl. f_equal; ring. Qed.

(** ** The constructors *)

Lemma cond_cases (name : string) :
  exists v out, materials.cond name = (inr v, out) /\
    (forall s, v = Some s -> 0 < s) /\
    (v = None <-> ~ recognised cond_names name).
Proof.
  destruct (recognised_dec cond_names name) as [H | H].
  - destruct (cond_known name H) as [v [Hv E]].
    exists (Some v), []. split; [assumption |]. split.
    + intros s [= <-]. assumption.
    + split; [discriminate | contradiction].
  - exists None, [not_supported name "cond(material)"].
    split; [now apply cond_unknown |]. split; [discriminate | tauto].
Qed.

Lemma dielec_cases (epsilon_0 : R) (name : string) :
  exists v out, materials.dielec_const epsilon_0 name = (inr v, out) /\
    (v = None <-> ~ recognised dielec_names name).
Proof.
  destruct (recognised_dec dielec_names name) as [H | H].
  - destruct (dielec_known epsilon_0 name H) as [er [tand [_ [_ E]]]].
    eexists (Some _), []. split; [eassumption |].
    split; [discriminate | contradiction].
  - exists None, [not_supported name "dielec_const(material)"].
    split; [now apply dielec_unknown |]. tauto.
Qed.

Section Constructors.

Variables mu_0 epsilon_0 : R.

Lemma COAX_init_ok (a b : R) (metal dielec : string)
      (sg : option R) (z : Cplx) (o1 o2 : list string) :
  materials.cond metal = (inr sg, o1) ->
  materials.dielec_const epsilon_0 dielec = (inr (Some z), o2) ->
  0 < a -> a < b ->
  COAX.__init__ mu_0 epsilon_0 a b metal dielec
  = (inr (COAX.mk a b sg (Some z) (1 * mu_0)
                  (1 * mu_0 * ln (b / a) / (2 * PI))
                  (2 * PI * real z / ln (b / a))),
     (o1 ++ o2 ++ [])%list).
Proof.
  intros E1 E2 Ha Hab. pose proof (ln_ratio_pos a b Ha Hab) as Hln.
  assert (Hq : 0 < b / a) by (apply Rdiv_lt_0_compat; lra).
  unfold COAX.__init__. rewrite E1, E2. unfold py_bind, py_lift, pydiv, math_log.
  destruct (Req_dec_T a 0) as [Ea | _]; [lra |]. simpl.
  destruct (Rle_dec (b / a) 0) as [Hle | _]; [lra |]. simpl.
  destruct (Req_dec_T (ln (b / a)) 0) as [El | _]; [lra |]. reflexivity.
Qed.

Lemma COAX_init_inv (a b : R) (metal dielec : string) (self : COAX.t) :
  fst (COAX.__init__ mu_0 epsilon_0 a b metal dielec) = inr self ->
  COAX_inv mu_0 self /\ COAX.a self = a /\ COAX.b self = b /\
  (COAX.sigma self = None <-> ~ recognised cond_names metal) /\
  recognised dielec_names dielec.
Proof.
  destruct (cond_cases metal) as [sg [o1 [E1 [Hpos Hnone]]]].
  destruct (dielec_cases epsilon_0 dielec) as [d [o2 [E2 Hd]]].
  unfold COAX.__init__. rewrite E1, E2. unfold py_bind, py_lift, pydiv, math_log.
  destruct (Req_dec_T a 0) as [Ea | Ha]; [discriminate |]. simpl.
  destruct (Rle_dec (b / a) 0) as [Hle | Hq]; [discriminate |]. simpl.
  destruct d as [z |]; [| discriminate]. simpl.
  destruct (Req_dec_T (ln (b / a)) 0) as [El | Hl]; [discriminate |]. simpl.
  intros [= <-]. unfold COAX_inv. simpl.
  repeat split; try assumption; try lra; try tauto.
  - exists z. split; reflexivity.
  - destruct (recognised_dec dielec_names dielec) as [H | H]; [assumption |].
    apply Hd in H. discriminate.
Qed.

Lemma TWWG_init_ok (S a : R) (metal dielec : string)
      (sg : option R) (z : Cplx) (o1 o2 : list string) :
  materials.cond metal = (inr sg, o1) ->
  materials.dielec_const epsilon_0 dielec = (inr (Some z), o2) ->
  0 < a -> 2 * a < S ->
  TWWG.__init__ mu_0 epsilon_0 S a metal dielec
  = (inr (TWWG.mk S a sg (Some z) (1 * mu_0)
                  (1 * mu_0 * acosh (S / (2 * a)) / PI)
                  (PI * real z / acosh (S / (2 * a)))),
     (o1 ++ o2 ++ [])%list).
Proof.
  intros E1 E2 Ha HS.
  assert (Hq : 1 < S / (2 * a)).
  { apply Rmult_lt_reg_r with (2 * a); [lra |].
    unfold Rdiv. rewrite Rmult_assoc, Rinv_l; lra. }
  pose proof (acosh_pos _ Hq) as Hac.
  unfold TWWG.__init__. rewrite E1, E2. unfold py_bind, py_lift, pydiv, math_acosh.
  destruct (Req_dec_T (2 * a) 0) as [Ea | _]; [lra |]. simpl.
  destruct (Rlt_dec (S / (2 * a)) 1) as [Hlt | _]; [lra |]. simpl.
  destruct (Req_dec_T (acosh (S / (2 * a))) 0) as [El | _]; [lra |]. reflexivity.
Qed.

Lemma TWWG_init_inv (S a : R) (metal dielec : string) (self : TWWG.t) :
  fst (TWWG.__init__ mu_0 epsilon_0 S a metal dielec) = inr self ->
  TWWG_inv mu_0 self /\ TWWG.S self = S /\ TWWG.a self = a /\
  (TWWG.sigma self = None <-> ~ recognised cond_names metal) /\
  recognised dielec_names dielec.
Proof.
  destruct (cond_cases metal) as [sg [o1 [E1 [Hpos Hnone]]]].
  destruct (dielec_cases epsilon_0 dielec) as [d [o2 [E2 Hd]]].
  unfold TWWG.__init__. rewrite E1, E2. unfold py_bind, py_lift, pydiv, math_acosh.
  destruct (Req_dec_T (2 * a) 0) as [Ea | Ha]; [discriminate |]. simpl.
  destruct (Rlt_dec (S / (2 * a)) 1) as [Hlt | Hq]; [discriminate |]. simpl.
  destruct d as [z |]; [| discriminate]. simpl.
  destruct (Req_dec_T (acosh (S / (2 * a))) 0) as [El | Hl]; [discriminate |]. simpl.
  intros [= <-]. unfold TWWG_inv. simpl.
  repeat split; try assumption; try lra; try tauto.
  - exists z. split; reflexivity.
  - destruct (recognised_dec dielec_names dielec) as [H | H]; [assumption |].
    apply Hd in H. discriminate.
Qed.

Lemma PPWG_init_ok (S T : R) (metal dielec : string)
      (sg : option R) (z : Cplx) (o1 o2 : list string) :
  materials.cond metal = (inr sg, o1) ->
  materials.dielec_const epsilon_0 dielec = (inr (Some z), o2) ->
  S <> 0 -> T <> 0 ->
  PPWG.__init__ mu_0 epsilon_0 S T metal dielec
  = (inr (PPWG.mk S T sg (Some z) (1 * mu_0)
                  (1 * mu_0 * S / T) (real z * T / S)),
     (o1 ++ o2 ++ [])%list).
Proof.
  intros E1 E2 HS HT.
  unfold PPWG.__init__. rewrite E1, E2. unfold py_bind, py_lift, pydiv.
  destruct (Req_dec_T T 0) as [E | _]; [contradiction |]. simpl.
  destruct (Req_dec_T S 0) as [E | _]; [contradiction |]. reflexivity.
Qed.

Lemma PPWG_init_inv (S T : R) (metal dielec : string) (self : PPWG.t) :
  fst (PPWG.__init__ mu_0 epsilon_0 S T metal dielec) = inr self ->
  PPWG_inv mu_0 self /\ PPWG.S self = S /\ PPWG.T self = T /\
  (PPWG.sigma self = None <-> ~ recognised cond_names metal) /\
  recognised dielec_names dielec.
Proof.
  destruct (cond_cases metal) as [sg [o1 [E1 [Hpos Hnone]]]].
  destruct (dielec_cases epsilon_0 dielec) as [d [o2 [E2 Hd]]].
  unfold PPWG.__init__. rewrite E1, E2. unfold py_bind, py_lift, pydiv.
  destruct (Req_dec_T T 0) as [E | HT]; [discriminate |]. simpl.
  destruct d as [z |]; [| discriminate]. simpl.
  destruct (Req_dec_T S 0) as [E | HS]; [discriminate |]. simpl.
  intros [= <-]. unfold PPWG_inv. simpl.
  repeat split; try assumption; try lra; try tauto.
  - exists z. split; reflexivity.
  - destruct (recognised_dec dielec_names dielec) as [H | H]; [assumption |].
    apply Hd in H. discriminate.
Qed.

End Constructors.

Lemma not_In_table (x : string) (table : list string) :
  existsb (String.eqb x) table = false -> ~ In x table.
Proof.
  intros H Hin. assert (existsb (String.eqb x) table = true); [| congruence].
  apply existsb_exists. exists x. split; [assumption | apply String.eqb_refl].
Qed.

Section UnknownMaterials.

Variables mu_0 epsilon_0 : R.

(** An unrecognised dielectric makes every constructor stop at its read of
    [self.eps.real]. *)
Lemma COAX_unknown_dielec (a b : R) (metal dielec : string) :
  ~ recognised dielec_names dielec -> 0 < a -> a < b ->
  fst (COAX.__init__ mu_0 epsilon_0 a b metal dielec) = inl AttributeError /\
  In (not_supported dielec "dielec_const(material)")
     (snd (COAX.__init__ mu_0 epsilon_0 a b metal dielec)).
Proof.
  intros Hd Ha Hab.
  assert (Hq : 0 < b / a) by (apply Rdiv_lt_0_compat; lra).
  destruct (cond_cases metal) as [sg [o1 [E1 _]]].
  unfold COAX.__init__. rewrite E1, (dielec_unknown _ _ Hd).
  unfold py_bind, py_lift, pydiv, math_log.
  destruct (Req_dec_T a 0) as [Ea | _]; [lra |]. simpl.
  destruct (Rle_dec (b / a) 0) as [Hle | _]; [lra |]. simpl.
  split; [reflexivity |]. apply in_or_app. right. now left.
Qed.

Lemma TWWG_unknown_dielec (S a : R) (metal dielec : string) :
  ~ recognised dielec_names dielec -> 0 < a -> 2 * a <= S ->
  fst (TWWG.__init__ mu_0 epsilon_0 S a metal dielec) = inl AttributeError /\
  In (not_supported dielec "dielec_const(material)")
     (snd (TWWG.__init__ mu_0 epsilon_0 S a metal dielec)).
Proof.
  intros Hd Ha HS.
  assert (Hq : 1 <= S / (2 * a)).
  { apply Rmult_le_reg_r with (2 * a); [lra |].
    unfold Rdiv. rewrite Rmult_assoc, Rinv_l; lra. }
  destruct (cond_cases metal) as [sg [o1 [E1 _]]].
  unfold TWWG.__init__. rewrite E1, (dielec_unknown _ _ Hd).
  unfold py_bind, py_lift, pydiv, math_acosh.
  destruct (Req_dec_T (2 * a) 0) as [Ea | _]; [lra |]. simpl.
  destruct (Rlt_dec (S / (2 * a)) 1) as [Hlt | _]; [lra |]. simpl.
  split; [reflexivity |]. apply in_or_app. right. now left.
Qed.

Lemma PPWG_unknown_dielec (S T : R) (metal dielec : string) :
  ~ recognised dielec_names dielec -> T <> 0 ->
  fst (PPWG.__init__ mu_0 epsilon_0 S T metal dielec) = inl AttributeError /\
  In (not_supported dielec "dielec_const(material)")
     (snd (PPWG.__init__ mu_0 epsilon_0 S T metal dielec)).
Proof.
  intros Hd HT.
  destruct (cond_cases metal) as [sg [o1 [E1 _]]].
  unfold PPWG.__init__. rewrite E1, (dielec_unknown _ _ Hd).
  unfold py_bind, py_lift, pydiv.
  destruct (Req_dec_T T 0) as [E | _]; [contradiction |]. simpl.
  split; [reflexivity |]. apply in_or_app. right. now left.
Qed.

(** C1 (amended).  A material name that, lower-cased, is no entry of the
    table asked is reported on standard output and answered with [None]: the
    lookup prints one line that quotes the name and the function, and no
    exception is raised by it.  So a constructor (COAX, TWWG, PPWG) given an
    unrecognised conductor name, a recognised dielectric and valid dimensions
    returns an object whose [sigma] is [None]; given an unrecognised
    dielectric name and valid dimensions it stops, at construction time,
    with [AttributeError] on reading [eps.real]. *)
Theorem unknown_material_printed_none (name metal dielec : string) :
  (~ recognised cond_names name ->
   materials.cond name = (inr None, [not_supported name "cond(material)"]) /\
   (recognised dielec_names dielec ->
    forall x y : R,
      (0 < x -> x < y ->
       exists m, fst (COAX.__init__ mu_0 epsilon_0 x y name dielec) = inr m /\
                 COAX.sigma m = None) /\
      (0 < y -> 2 * y < x ->
       exists m, fst (TWWG.__init__ mu_0 epsilon_0 x y name dielec) = inr m /\
                 TWWG.sigma m = None) /\
      (x <> 0 -> y <> 0 ->
       exists m, fst (PPWG.__init__ mu_0 epsilon_0 x y name dielec) = inr m /\
                 PPWG.sigma m = None)))
  /\
  (~ recognised dielec_names name ->
   materials.dielec_const epsilon_0 name
   = (inr None, [not_supported name "dielec_const(material)"]) /\
   forall x y : R,
     (0 < x -> x < y ->
      fst (COAX.__init__ mu_0 epsilon_0 x y metal name) = inl AttributeError) /\
     (0 < y -> 2 * y <= x ->
      fst (TWWG.__init__ mu_0 epsilon_0 x y metal name) = inl AttributeError) /\
     (y <> 0 ->
      fst (PPWG.__init__ mu_0 epsilon_0 x y metal name) = inl AttributeError)).
Proof.
  split.
  - intros Hn. split; [now apply cond_unknown |].
    intros Hd x y.
    destruct (dielec_known epsilon_0 dielec Hd) as [er [tand [_ [_ E2]]]].
    pose proof (cond_unknown name Hn) as E1.
    split; [| split].
    + intros Hx Hxy. eexists. split.
      * rewrite (COAX_init_ok _ _ _ _ _ _ _ _ _ _ E1 E2 Hx Hxy). reflexivity.
      * reflexivity.
    + intros Hy Hyx. eexists. split.
      * rewrite (TWWG_init_ok _ _ _ _ _ _ _ _ _ _ E1 E2 Hy Hyx). reflexivity.
      * reflexivity.
    + intros Hx Hy. eexists. split.
      * rewrite (PPWG_init_ok _ _ _ _ _ _ _ _ _ _ E1 E2 Hx Hy). reflexivity.
      * reflexivity.
  - intros Hn. split; [now apply dielec_unknown |].
    intros x y. split; [| split].
    + intros Hx Hxy. now apply COAX_unknown_dielec.
    + intros Hy Hyx. now apply TWWG_unknown_dielec.
    + intros Hy. now apply PPWG_unknown_dielec.
Qed.

(** A two-wire constructor call with S <= 2a and recognised materials: the
    domain error of [math.acosh] below 1, the division by acosh(1) = 0 at
    1. *)
Lemma TWWG_init_degenerate (S a : R) (metal dielec : string) :
  0 < a -> S <= 2 * a ->
  recognised cond_names metal -> recognised dielec_names dielec ->
  fst (TWWG.__init__ mu_0 epsilon_0 S a metal dielec)
  = inl (if Rlt_dec S (2 * a) then ValueError else ZeroDivisionError).
Proof.
  intros Ha HS Hm Hd.
  destruct (cond_known metal Hm) as [v [_ E1]].
  destruct (dielec_known epsilon_0 dielec Hd) as [er [tand [_ [_ E2]]]].
  unfold TWWG.__init__. rewrite E1, E2. unfold py_bind, py_lift, pydiv, math_acosh.
  destruct (Req_dec_T (2 * a) 0) as [Ea | _]; [lra |]. simpl.
  destruct (Rlt_dec (S / (2 * a)) 1) as [Hlt | Hge]; simpl.
  - destruct (Rlt_dec S (2 * a)) as [_ | N]; [reflexivity |].
    exfalso. assert (S = 2 * a) by lra. subst S.
    unfold Rdiv in Hlt. rewrite Rinv_r in Hlt; lra.
  - assert (HS2 : S = 2 * a).
    { destruct HS as [HS | HS]; [| assumption]. exfalso. apply Hge.
      apply Rmult_lt_reg_r with (2 * a); [lra |].
      unfold Rdiv. rewrite Rmult_assoc, Rinv_l; lra. }
    assert (Hq : S / (2 * a) = 1) by (rewrite HS2; unfold Rdiv; apply Rinv_r; lra).
    rewrite Hq, acosh_1.
    destruct (Req_dec_T 0 0) as [_ | N]; [| contradiction]. simpl.
    destruct (Rlt_dec S (2 * a)) as [Hlt | _]; [lra | reflexivity].
Qed.

(** C2 (amended).  For a > 0 and S <= 2a, constructing a two-wire waveguide
    with recognised material names fails at construction with a built-in
    exception: [ValueError] (the domain error of [math.acosh]) when S < 2a,
    and [ZeroDivisionError] (the division of [C] by acosh(1) = 0) when
    S = 2a. *)
Theorem two_wire_bad_geometry_fails (S a : R) (metal dielec : string) :
  0 < a -> S <= 2 * a ->
  recognised cond_names metal -> recognised dielec_names dielec ->
  exists e, fst (TWWG.__init__ mu_0 epsilon_0 S a metal dielec) = inl e /\
    (S < 2 * a -> e = ValueError) /\
    (S = 2 * a -> e = ZeroDivisionError).
Proof.
  intros Ha HS Hm Hd. eexists. split.
  - now apply TWWG_init_degenerate.
  - destruct (Rlt_dec S (2 * a)) as [Hlt | Hge].
    + split; [reflexivity | lra].
    + split; [intros H; contradiction | reflexivity].
Qed.

End UnknownMaterials.

(** ** The queries, one frequency at a time *)

Lemma np_div_some (v y : R) : y <> 0 -> np_div (Some v) y = Some (v / y).
Proof.
  intros Hy. unfold np_div. destruct (Req_dec_T y 0); [contradiction | reflexivity].
Qed.

Lemma true_div_scalar (v y : R) :
  y <> 0 -> true_div (Scalar v) y = inr (Scalar (Some (v / y))).
Proof.
  intros Hy. unfold true_div, pydiv.
  destruct (Req_dec_T y 0); [contradiction | reflexivity].
Qed.

Lemma true_div_array (l : list R) (y : R) :
  y <> 0 -> true_div (Array l) y = inr (Array (map (fun v => Some (v / y)) l)).
Proof.
  intros Hy. unfold true_div. do 2 f_equal.
  apply map_ext. intros v. now apply np_div_some.
Qed.

Lemma zip_with_map {A B1 B2 T : Type} (g : B1 -> B2 -> T)
      (p : A -> B1) (q : A -> B2) (l : list A) :
  zip_with g (map p l) (map q l) = map (fun x => g (p x) (q x)) l.
Proof. induction l as [| x l IH]; simpl; [reflexivity | now rewrite IH]. Qed.

(** Two arrays computed from the same frequencies combine element by
    element. *)
Lemma nd_map2_arrays {A B1 B2 T : Type} (g : B1 -> B2 -> T)
      (p : A -> B1) (q : A -> B2) (l : list A) :
  nd_map2 g (Array (map p l)) (Array (map q l))
  = inr (Array (map (fun x => g (p x) (q x)) l)).
Proof.
  unfold nd_map2. rewrite !length_map, Nat.eqb_refl. now rewrite zip_with_map.
Qed.

Lemma z0_of_array (fs : list R) (fw : R -> R) (Rs : nd (option R))
      (fR fG : R -> option R) (L C : R) :
  z0_of (Array (map fw fs), Rs, Array (map fR fs), Array (map fG fs)) L C
  = inr (Array (map (fun f => z0_at (fw f) (fR f) (fG f) L C) fs)).
Proof.
  unfold z0_of, jw_times, nd_map. rewrite !map_map.
  rewrite !nd_map2_arrays. cbn [res_bind]. rewrite nd_map2_arrays.
  cbn [res_bind]. now rewrite map_map.
Qed.

Lemma gamma_of_array (fs : list R) (fw : R -> R) (Rs : nd (option R))
      (fR fG : R -> option R) (L C : R) :
  gamma_of (Array (map fw fs), Rs, Array (map fR fs), Array (map fG fs)) L C
  = inr (Array (map (fun f => gamma_at (fw f) (fR f) (fG f) L C) fs)).
Proof.
  unfold gamma_of, jw_times, nd_map. rewrite !map_map.
  rewrite !nd_map2_arrays. cbn [res_bind]. rewrite nd_map2_arrays.
  cbn [res_bind]. now rewrite map_map.
Qed.

Lemma ratio_pos_numerator (x y : R) : 0 < x / y -> x <> 0.
Proof.
  intros H E. rewrite E in H. unfold Rdiv in H. rewrite Rmult_0_l in H. lra.
Qed.

Section Queries.

Variable mu_0 : R.

Lemma COAX_rlgc_scalar (self : COAX.t) (s : R) (z : Cplx) (f : R) :
  COAX_inv mu_0 self -> COAX.sigma self = Some s -> COAX.eps self = Some z ->
  COAX.rlgc self (Scalar f)
  = inr (Scalar (2 * PI * f), Scalar (Rs_at (COAX.mu self) s f),
         Scalar (COAX_R_at self s f), Scalar (Some (COAX_G_at self z f))).
Proof.
  intros (Ha & Hq & Hl & _ & _ & _ & Hpos) Hs Hz.
  pose proof (Hpos s Hs) as Hs0. pose proof (ratio_pos_numerator _ _ Hq) as Hb.
  unfold COAX.rlgc. rewrite Hs, Hz. cbn [nd_map res_bind pymul_opt attr_imag].
  rewrite true_div_scalar by lra. cbn [nd_map res_bind].
  unfold pydiv, math_log.
  destruct (Req_dec_T (COAX.a self) 0); [contradiction |].
  destruct (Req_dec_T (COAX.b self) 0); [contradiction |]. cbn [res_bind].
  destruct (Rle_dec (COAX.b self / COAX.a self) 0); [lra |].
  cbn [res_bind]. rewrite true_div_scalar by assumption. reflexivity.
Qed.

Lemma COAX_rlgc_array (self : COAX.t) (s : R) (z : Cplx) (fs : list R) :
  COAX_inv mu_0 self -> COAX.sigma self = Some s -> COAX.eps self = Some z ->
  COAX.rlgc self (Array fs)
  = inr (Array (map (fun f => 2 * PI * f) fs),
         Array (map (Rs_at (COAX.mu self) s) fs),
         Array (map (COAX_R_at self s) fs),
         Array (map (fun f => Some (COAX_G_at self z f)) fs)).
Proof.
  intros (Ha & Hq & Hl & _ & _ & _ & Hpos) Hs Hz.
  pose proof (Hpos s Hs) as Hs0. pose proof (ratio_pos_numerator _ _ Hq) as Hb.
  unfold COAX.rlgc. rewrite Hs, Hz. cbn [nd_map res_bind pymul_opt attr_imag].
  rewrite true_div_array by lra. cbn [nd_map res_bind].
  unfold pydiv, math_log.
  destruct (Req_dec_T (COAX.a self) 0); [contradiction |].
  destruct (Req_dec_T (COAX.b self) 0); [contradiction |]. cbn [res_bind].
  destruct (Rle_dec (COAX.b self / COAX.a self) 0); [lra |].
  cbn [res_bind]. rewrite true_div_array by assumption.
  rewrite !map_map. reflexivity.
Qed.

Lemma TWWG_rlgc_scalar (self : TWWG.t) (s : R) (z : Cplx) (f : R) :
  TWWG_inv mu_0 self -> TWWG.sigma self = Some s -> TWWG.eps self = Some z ->
  TWWG.rlgc self (Scalar f)
  = inr (Scalar (2 * PI * f), Scalar (Rs_at (TWWG.mu self) s f),
         Scalar (TWWG_R_at self s f), Scalar (Some (TWWG_G_at self z f))).
Proof.
  intros (Ha & Hq & Hl & _ & _ & _ & Hpos) Hs Hz.
  pose proof (Hpos s Hs) as Hs0.
  unfold TWWG.rlgc. rewrite Hs, Hz. cbn [nd_map res_bind pymul_opt attr_imag].
  rewrite true_div_scalar by lra. cbn [nd_map res_bind].
  unfold pydiv, math_acosh.
  destruct (Req_dec_T (2 * TWWG.a self) 0); [contradiction |]. cbn [res_bind].
  destruct (Rlt_dec (TWWG.S self / (2 * TWWG.a self)) 1); [lra |].
  cbn [res_bind]. rewrite true_div_scalar by assumption. reflexivity.
Qed.

Lemma TWWG_rlgc_array (self : TWWG.t) (s : R) (z : Cplx) (fs : list R) :
  TWWG_inv mu_0 self -> TWWG.sigma self = Some s -> TWWG.eps self = Some z ->
  TWWG.rlgc self (Array fs)
  = inr (Array (map (fun f => 2 * PI * f) fs),
         Array (map (Rs_at (TWWG.mu self) s) fs),
         Array (map (TWWG_R_at self s) fs),
         Array (map (fun f => Some (TWWG_G_at self z f)) fs)).
Proof.
  intros (Ha & Hq & Hl & _ & _ & _ & Hpos) Hs Hz.
  pose proof (Hpos s Hs) as Hs0.
  unfold TWWG.rlgc. rewrite Hs, Hz. cbn [nd_map res_bind pymul_opt attr_imag].
  rewrite true_div_array by lra. cbn [nd_map res_bind].
  unfold pydiv, math_acosh.
  destruct (Req_dec_T (2 * TWWG.a self) 0); [contradiction |]. cbn [res_bind].
  destruct (Rlt_dec (TWWG.S self / (2 * TWWG.a self)) 1); [lra |].
  cbn [res_bind]. rewrite true_div_array by assumption.
  rewrite !map_map. reflexivity.
Qed.

Lemma PPWG_rlgc_scalar (self : PPWG.t) (s : R) (z : Cplx) (f : R) :
  PPWG_inv mu_0 self -> PPWG.sigma self = Some s -> PPWG.eps self = Some z ->
  PPWG.rlgc self (Scalar f)
  = inr (Scalar (2 * PI * f), Scalar (Rs_at (PPWG.mu self) s f),
         Scalar (PPWG_R_at self s f), Scalar (Some (PPWG_G_at self z f))).
Proof.
  intros (HS & HT & _ & _ & _ & Hpos) Hs Hz.
  pose proof (Hpos s Hs) as Hs0.
  unfold PPWG.rlgc. rewrite Hs, Hz. cbn [nd_map res_bind pymul_opt attr_imag].
  rewrite true_div_scalar by lra. cbn [nd_map res_bind].
  rewrite true_div_scalar by assumption. reflexivity.
Qed.

Lemma PPWG_rlgc_array (self : PPWG.t) (s : R) (z : Cplx) (fs : list R) :
  PPWG_inv mu_0 self -> PPWG.sigma self = Some s -> PPWG.eps self = Some z ->
  PPWG.rlgc self (Array fs)
  = inr (Array (map (fun f => 2 * PI * f) fs),
         Array (map (Rs_at (PPWG.mu self) s) fs),
         Array (map (PPWG_R_at self s) fs),
         Array (map (fun f => Some (PPWG_G_at self z f)) fs)).
Proof.
  intros (HS & HT & _ & _ & _ & Hpos) Hs Hz.
  pose proof (Hpos s Hs) as Hs0.
  unfold PPWG.rlgc. rewrite Hs, Hz. cbn [nd_map res_bind pymul_opt attr_imag].
  rewrite true_div_array by lra. cbn [nd_map res_bind].
  rewrite true_div_array by assumption.
  rewrite !map_map. reflexivity.
Qed.

(** Without a conductivity every query stops at [2*self.sigma]. *)
Lemma COAX_rlgc_none (self : COAX.t) (freq : nd R) :
  COAX.sigma self = None -> COAX.rlgc self freq = inl TypeError.
Proof. intros H. unfold COAX.rlgc. now rewrite H. Qed.

Lemma TWWG_rlgc_none (self : TWWG.t) (freq : nd R) :
  TWWG.sigma self = None -> TWWG.rlgc self freq = inl TypeError.
Proof. intros H. unfold TWWG.rlgc. now rewrite H. Qed.

Lemma PPWG_rlgc_none (self : PPWG.t) (freq : nd R) :
  PPWG.sigma self = None -> PPWG.rlgc self freq = inl TypeError.
Proof. intros H. unfold PPWG.rlgc. now rewrite H. Qed.

End Queries.

(** ** The queries of any class *)

Section AnyClass.

Variable S : Type.
Variable rlgc : S -> nd R -> res locals.
Variables L C : S -> R.

Local Abbreviation get_z0 := (query_z0 rlgc L C).
Local Abbreviation get_gamma := (query_gamma rlgc L C).
Local Abbreviation get_alpha := (query_part np_real get_gamma).
Local Abbreviation get_beta := (query_part np_imag get_gamma).

Lemma query_z0_run (freq : nd R) (self : S) :
  get_z0 freq self
  = ((l <- rlgc self freq ;; z0_of l (L self) (C self))%res, self).
Proof. reflexivity. Qed.

Lemma query_gamma_run (freq : nd R) (self : S) :
  get_gamma freq self
  = ((l <- rlgc self freq ;; gamma_of l (L self) (C self))%res, self).
Proof. reflexivity. Qed.

Lemma query_part_run (part : option Cplx -> option R) (freq : nd R) (self : S) :
  query_part part get_gamma freq self
  = (res_map (nd_map part) (fst (get_gamma freq self)), self).
Proof.
  unfold query_part, meth_bind. rewrite query_gamma_run.
  destruct (res_bind _ _); reflexivity.
Qed.

Lemma queries_read_only (freq : nd R) :
  read_only (get_z0 freq) /\ read_only (get_gamma freq) /\
  read_only (get_alpha freq) /\ read_only (get_beta freq).
Proof.
  unfold read_only.
  split; [| split; [| split]]; intros self;
    rewrite ?query_part_run, ?query_z0_run, ?query_gamma_run; reflexivity.
Qed.

Lemma queries_repeatable (freq : nd R) :
  repeatable (get_z0 freq) /\ repeatable (get_gamma freq) /\
  repeatable (get_alpha freq) /\ repeatable (get_beta freq).
Proof.
  destruct (queries_read_only freq) as (H1 & H2 & H3 & H4).
  unfold repeatable, read_only in *.
  split; [| split; [| split]]; intros self.
  - now rewrite H1.
  - now rewrite H2.
  - now rewrite H3.
  - now rewrite H4.
Qed.

Lemma queries_parts_of_gamma : parts_of_gamma get_gamma get_alpha get_beta.
Proof.
  intros freq self. now rewrite !query_part_run.
Qed.

Lemma Forall2_map_r {A B : Type} (P : A -> B -> Prop) (g : A -> B) (l : list A) :
  (forall x, P x (g x)) -> Forall2 P l (map g l).
Proof.
  intros H. induction l as [| x l IH]; simpl; constructor; auto.
Qed.

(** An object without a conductivity: every query raises [TypeError],
    whatever the frequency argument. *)
Lemma queries_pointwise_none (self : S) (fs : list R) :
  (forall freq, rlgc self freq = inl TypeError) ->
  pointwise get_z0 self fs /\ pointwise get_gamma self fs /\
  pointwise get_alpha self fs /\ pointwise get_beta self fs.
Proof.
  intros Hnone. unfold pointwise.
  rewrite !query_part_run, query_z0_run, query_gamma_run, Hnone. simpl.
  split; [| split; [| split]]; intros f;
    rewrite ?query_part_run, ?query_z0_run, ?query_gamma_run, Hnone; reflexivity.
Qed.

Section AnyObject.

Variable self : S.
Variables fRs fR : R -> option R.
Variable fG : R -> R.

Hypothesis rlgc_scalar : forall f,
  rlgc self (Scalar f)
  = inr (Scalar (2 * PI * f), Scalar (fRs f), Scalar (fR f), Scalar (Some (fG f))).

Hypothesis rlgc_array : forall fs,
  rlgc self (Array fs)
  = inr (Array (map (fun f => 2 * PI * f) fs), Array (map fRs fs),
         Array (map fR fs), Array (map (fun f => Some (fG f)) fs)).

Lemma get_z0_scalar (f : R) :
  fst (get_z0 (Scalar f) self)
  = inr (Scalar (z0_at (2 * PI * f) (fR f) (Some (fG f)) (L self) (C self))).
Proof. rewrite query_z0_run, rlgc_scalar. reflexivity. Qed.

Lemma get_gamma_scalar (f : R) :
  fst (get_gamma (Scalar f) self)
  = inr (Scalar (gamma_at (2 * PI * f) (fR f) (Some (fG f)) (L self) (C self))).
Proof. rewrite query_gamma_run, rlgc_scalar. reflexivity. Qed.

Lemma get_z0_array (fs : list R) :
  fst (get_z0 (Array fs) self)
  = inr (Array (map (fun f => z0_at (2 * PI * f) (fR f) (Some (fG f))
                                      (L self) (C self)) fs)).
Proof.
  rewrite query_z0_run, rlgc_array. cbn [fst res_bind].
  apply (z0_of_array fs (fun f => 2 * PI * f) _ fR (fun f => Some (fG f))).
Qed.

Lemma get_gamma_array (fs : list R) :
  fst (get_gamma (Array fs) self)
  = inr (Array (map (fun f => gamma_at (2 * PI * f) (fR f) (Some (fG f))
                                         (L self) (C self)) fs)).
Proof.
  rewrite query_gamma_run, rlgc_array. cbn [fst res_bind].
  apply (gamma_of_array fs (fun f => 2 * PI * f) _ fR (fun f => Some (fG f))).
Qed.

Lemma queries_pointwise (fs : list R) :
  pointwise get_z0 self fs /\ pointwise get_gamma self fs /\
  pointwise get_alpha self fs /\ pointwise get_beta self fs.
Proof.
  unfold pointwise.
  rewrite !query_part_run, get_z0_array, get_gamma_array. cbn [fst res_map nd_map].
  split; [| split; [| split]]; rewrite ?map_map; apply Forall2_map_r; intros f.
  - apply get_z0_scalar.
  - apply get_gamma_scalar.
  - rewrite query_part_run, get_gamma_scalar. reflexivity.
  - rewrite query_part_run, get_gamma_scalar. reflexivity.
Qed.

Lemma queries_answer_array (fs : list R) :
  answers_array get_z0 self fs /\ answers_array get_gamma self fs /\
  answers_array get_alpha self fs /\ answers_array get_beta self fs.
Proof.
  unfold answers_array.
  rewrite !query_part_run, get_z0_array, get_gamma_array. cbn [fst res_map nd_map].
  split; [| split; [| split]]; eexists; (split; [reflexivity |]);
    now rewrite !length_map.
Qed.

Lemma gamma_principal_root (f r : R) :
  fR f = Some r ->
  principal_root rlgc L C get_gamma get_alpha get_beta self f.
Proof.
  intros Hr. exists (Scalar (fRs f)), r, (fG f).
  split; [now rewrite rlgc_scalar, Hr |].
  assert (Hg : fst (get_gamma (Scalar f) self)
               = inr (Scalar (Some (Csqrt (Cmul (complex r (2 * PI * f * L self))
                                                (complex (fG f) (2 * PI * f * C self))))))).
  { rewrite get_gamma_scalar, Hr. unfold gamma_at, plus_jw, np_add_c, option_map.
    rewrite !add_jw. reflexivity. }
  cbv zeta. split; [exact Hg |].
  split; [now rewrite query_part_run, Hg |].
  split; [now rewrite query_part_run, Hg |].
  split; [apply Csqrt_sqr |]. apply Csqrt_principal.
Qed.

Lemma z0_zero_over_zero :
  fRs 0 = Some 0 -> fR 0 = Some 0 -> fG 0 = 0 ->
  zero_over_zero rlgc C get_z0 self.
Proof.
  intros HRs HR HG. unfold zero_over_zero.
  assert (Hp : forall x, plus_jw (Some 0) 0 x = Some (complex 0 0)).
  { intros x. unfold plus_jw, np_add_c, option_map. rewrite add_jw.
    now rewrite Rmult_0_l. }
  assert (Hw : 2 * PI * 0 = 0) by ring.
  split; [| split].
  - rewrite rlgc_scalar, Hw, HRs, HR, HG. reflexivity.
  - apply Hp.
  - rewrite get_z0_scalar, Hw, HR, HG. unfold z0_at. rewrite !Hp.
    unfold np_cdiv. destruct (Czero_dec (complex 0 0)); [reflexivity | contradiction].
Qed.

End AnyObject.

End AnyClass.

(** ** The surface resistance and [R] as numbers *)

Lemma Rs_at_finite (mu s f : R) :
  0 <= mu -> 0 < s -> 0 <= f ->
  Rs_at mu s f = Some (sqrt (2 * PI * f * mu / (2 * s))).
Proof.
  intros Hmu Hs Hf. unfold Rs_at, np_sqrt.
  destruct (Rlt_dec (2 * PI * f * mu / (2 * s)) 0) as [H | _]; [| reflexivity].
  exfalso. pose proof PI_RGT_0 as Hpi.
  assert (0 <= 2 * PI * f * mu).
  { apply Rmult_le_pos; [apply Rmult_le_pos |]; lra. }
  assert (0 < / (2 * s)) by (apply Rinv_0_lt_compat; lra).
  unfold Rdiv in H. nra.
Qed.

Lemma Rs_at_zero (mu s : R) : Rs_at mu s 0 = Some 0.
Proof.
  unfold Rs_at, np_sqrt.
  replace (2 * PI * 0 * mu / (2 * s)) with 0 by (unfold Rdiv; ring).
  destruct (Rlt_dec 0 0) as [H | _]; [lra |]. now rewrite sqrt_0.
Qed.

Lemma two_pi_neq_0 : 2 * PI <> 0.
Proof. pose proof PI_RGT_0. lra. Qed.

Lemma COAX_R_at_finite (self : COAX.t) (s f r : R) :
  Rs_at (COAX.mu self) s f = Some r ->
  COAX_R_at self s f = Some (r * (1 / COAX.a self + 1 / COAX.b self) / (2 * PI)).
Proof.
  intros H. unfold COAX_R_at. rewrite H. cbn [np_mul option_map].
  apply np_div_some, two_pi_neq_0.
Qed.

Lemma TWWG_R_at_finite (self : TWWG.t) (s f r : R) :
  2 * TWWG.a self <> 0 ->
  Rs_at (TWWG.mu self) s f = Some r ->
  TWWG_R_at self s f = Some (r / (PI * TWWG.a self)).
Proof.
  intros Ha H. unfold TWWG_R_at. rewrite H. apply np_div_some.
  pose proof PI_RGT_0. nra.
Qed.

Lemma PPWG_R_at_finite (self : PPWG.t) (s f r : R) :
  PPWG.T self <> 0 ->
  Rs_at (PPWG.mu self) s f = Some r ->
  PPWG_R_at self s f = Some (2 * r / PPWG.T self).
Proof.
  intros HT H. unfold PPWG_R_at. rewrite H. cbn [np_rmul option_map].
  now apply np_div_some.
Qed.

(** ** Objects the constructors return *)

Lemma sigma_some {A : Type} (x : option A) : x <> None -> exists v, x = Some v.
Proof. destruct x as [v |]; [now exists v | contradiction]. Qed.

Section Built.

Variables mu_0 epsilon_0 : R.

Lemma COAX_built_inv (self : COAX.t) :
  COAX_built mu_0 epsilon_0 self -> COAX_inv mu_0 self.
Proof. intros (a & b & m & d & H). now apply COAX_init_inv in H. Qed.

Lemma TWWG_built_inv (self : TWWG.t) :
  TWWG_built mu_0 epsilon_0 self -> TWWG_inv mu_0 self.
Proof. intros (S & a & m & d & H). now apply TWWG_init_inv in H. Qed.

Lemma PPWG_built_inv (self : PPWG.t) :
  PPWG_built mu_0 epsilon_0 self -> PPWG_inv mu_0 self.
Proof. intros (S & T & m & d & H). now apply PPWG_init_inv in H. Qed.

End Built.

(** ** Properties of the queries *)

Section QueryProperties.

Variables mu_0 epsilon_0 : R.

(** C9.  Every query of every class hands the object back unchanged, all
    attributes included, and a second call with the same frequency argument
    returns (or raises) what the first did. *)
Theorem queries_leave_model_unchanged (freq : nd R) :
  (read_only (COAX.get_z0 freq) /\ read_only (COAX.get_gamma freq) /\
   read_only (COAX.get_alpha freq) /\ read_only (COAX.get_beta freq)) /\
  (read_only (TWWG.get_z0 freq) /\ read_only (TWWG.get_gamma freq) /\
   read_only (TWWG.get_alpha freq) /\ read_only (TWWG.get_beta freq)) /\
  (read_only (PPWG.get_z0 freq) /\ read_only (PPWG.get_gamma freq) /\
   read_only (PPWG.get_alpha freq) /\ read_only (PPWG.get_beta freq)) /\
  (repeatable (COAX.get_z0 freq) /\ repeatable (COAX.get_gamma freq) /\
   repeatable (COAX.get_alpha freq) /\ repeatable (COAX.get_beta freq)) /\
  (repeatable (TWWG.get_z0 freq) /\ repeatable (TWWG.get_gamma freq) /\
   repeatable (TWWG.get_alpha freq) /\ repeatable (TWWG.get_beta freq)) /\
  (repeatable (PPWG.get_z0 freq) /\ repeatable (PPWG.get_gamma freq) /\
   repeatable (PPWG.get_alpha freq) /\ repeatable (PPWG.get_beta freq)).
Proof.
  split; [exact (queries_read_only _ COAX.rlgc COAX.L COAX.C freq) |].
  split; [exact (queries_read_only _ TWWG.rlgc TWWG.L TWWG.C freq) |].
  split; [exact (queries_read_only _ PPWG.rlgc PPWG.L PPWG.C freq) |].
  split; [exact (queries_repeatable _ COAX.rlgc COAX.L COAX.C freq) |].
  split; [exact (queries_repeatable _ TWWG.rlgc TWWG.L TWWG.C freq) |].
  exact (queries_repeatable _ PPWG.rlgc PPWG.L PPWG.C freq).
Qed.

Lemma COAX_pointwise (self : COAX.t) (fs : list R) :
  COAX_built mu_0 epsilon_0 self ->
  (pointwise COAX.get_z0 self fs /\ pointwise COAX.get_gamma self fs /\
   pointwise COAX.get_alpha self fs /\ pointwise COAX.get_beta self fs) /\
  (COAX.sigma self <> None ->
   answers_array COAX.get_z0 self fs /\ answers_array COAX.get_gamma self fs /\
   answers_array COAX.get_alpha self fs /\ answers_array COAX.get_beta self fs).
Proof.
  intros Hb. pose proof (COAX_built_inv _ _ _ Hb) as I.
  assert (Hz : exists z, COAX.eps self = Some z).
  { destruct I as (_ & _ & _ & _ & _ & (z & Hz & _) & _). now exists z. }
  destruct Hz as [z Hz].
  destruct (COAX.sigma self) as [s |] eqn:Hs.
  - split; [| intros _].
    + exact (queries_pointwise _ COAX.rlgc COAX.L COAX.C self _ _ _
               (fun f => COAX_rlgc_scalar mu_0 self s z f I Hs Hz)
               (fun l => COAX_rlgc_array mu_0 self s z l I Hs Hz) fs).
    + exact (queries_answer_array _ COAX.rlgc COAX.L COAX.C self _ _ _
               (fun l => COAX_rlgc_array mu_0 self s z l I Hs Hz) fs).
  - split; [| intros N; contradiction].
    exact (queries_pointwise_none _ COAX.rlgc COAX.L COAX.C self fs
             (fun freq => COAX_rlgc_none self freq Hs)).
Qed.

Lemma TWWG_pointwise (self : TWWG.t) (fs : list R) :
  TWWG_built mu_0 epsilon_0 self ->
  (pointwise TWWG.get_z0 self fs /\ pointwise TWWG.get_gamma self fs /\
   pointwise TWWG.get_alpha self fs /\ pointwise TWWG.get_beta self fs) /\
  (TWWG.sigma self <> None ->
   answers_array TWWG.get_z0 self fs /\ answers_array TWWG.get_gamma self fs /\
   answers_array TWWG.get_alpha self fs /\ answers_array TWWG.get_beta self fs).
Proof.
  intros Hb. pose proof (TWWG_built_inv _ _ _ Hb) as I.
  assert (Hz : exists z, TWWG.eps self = Some z).
  { destruct I as (_ & _ & _ & _ & _ & (z & Hz & _) & _). now exists z. }
  destruct Hz as [z Hz].
  destruct (TWWG.sigma self) as [s |] eqn:Hs.
  - split; [| intros _].
    + exact (queries_pointwise _ TWWG.rlgc TWWG.L TWWG.C self _ _ _
               (fun f => TWWG_rlgc_scalar mu_0 self s z f I Hs Hz)
               (fun l => TWWG_rlgc_array mu_0 self s z l I Hs Hz) fs).
    + exact (queries_answer_array _ TWWG.rlgc TWWG.L TWWG.C self _ _ _
               (fun l => TWWG_rlgc_array mu_0 self s z l I Hs Hz) fs).
  - split; [| intros N; contradiction].
    exact (queries_pointwise_none _ TWWG.rlgc TWWG.L TWWG.C self fs
             (fun freq => TWWG_rlgc_none self freq Hs)).
Qed.

Lemma PPWG_pointwise (self : PPWG.t) (fs : list R) :
  PPWG_built mu_0 epsilon_0 self ->
  (pointwise PPWG.get_z0 self fs /\ pointwise PPWG.get_gamma self fs /\
   pointwise PPWG.get_alpha self fs /\ pointwise PPWG.get_beta self fs) /\
  (PPWG.sigma self <> None ->
   answers_array PPWG.get_z0 self fs /\ answers_array PPWG.get_gamma self fs /\
   answers_array PPWG.get_alpha self fs /\ answers_array PPWG.get_beta self fs).
Proof.
  intros Hb. pose proof (PPWG_built_inv _ _ _ Hb) as I.
  assert (Hz : exists z, PPWG.eps self = Some z).
  { destruct I as (_ & _ & _ & _ & (z & Hz & _) & _). now exists z. }
  destruct Hz as [z Hz].
  destruct (PPWG.sigma self) as [s |] eqn:Hs.
  - split; [| intros _].
    + exact (queries_pointwise _ PPWG.rlgc PPWG.L PPWG.C self _ _ _
               (fun f => PPWG_rlgc_scalar mu_0 self s z f I Hs Hz)
               (fun l => PPWG_rlgc_array mu_0 self s z l I Hs Hz) fs).
    + exact (queries_answer_array _ PPWG.rlgc PPWG.L PPWG.C self _ _ _
               (fun l => PPWG_rlgc_array mu_0 self s z l I Hs Hz) fs).
  - split; [| intros N; contradiction].
    exact (queries_pointwise_none _ PPWG.rlgc PPWG.L PPWG.C self fs
             (fun freq => PPWG_rlgc_none self freq Hs)).
Qed.

(** C6.  On an object a constructor returned, each of the four queries
    answers an array of N frequencies element by element: when it returns,
    it returns an array whose i-th element is what the query returns for the
    i-th frequency alone, in the same order and of the same length N; it
    raises only what the query raises for every single frequency.  When the
    conductor was recognised it does return, an array of length N. *)
Theorem queries_map_over_frequencies (fs : list R) :
  (forall self, COAX_built mu_0 epsilon_0 self ->
     (pointwise COAX.get_z0 self fs /\ pointwise COAX.get_gamma self fs /\
      pointwise COAX.get_alpha self fs /\ pointwise COAX.get_beta self fs) /\
     (COAX.sigma self <> None ->
      answers_array COAX.get_z0 self fs /\ answers_array COAX.get_gamma self fs /\
      answers_array COAX.get_alpha self fs /\ answers_array COAX.get_beta self fs))
  /\
  (forall self, TWWG_built mu_0 epsilon_0 self ->
     (pointwise TWWG.get_z0 self fs /\ pointwise TWWG.get_gamma self fs /\
      pointwise TWWG.get_alpha self fs /\ pointwise TWWG.get_beta self fs) /\
     (TWWG.sigma self <> None ->
      answers_array TWWG.get_z0 self fs /\ answers_array TWWG.get_gamma self fs /\
      answers_array TWWG.get_alpha self fs /\ answers_array TWWG.get_beta self fs))
  /\
  (forall self, PPWG_built mu_0 epsilon_0 self ->
     (pointwise PPWG.get_z0 self fs /\ pointwise PPWG.get_gamma self fs /\
      pointwise PPWG.get_alpha self fs /\ pointwise PPWG.get_beta self fs) /\
     (PPWG.sigma self <> None ->
      answers_array PPWG.get_z0 self fs /\ answers_array PPWG.get_gamma self fs /\
      answers_array PPWG.get_alpha self fs /\ answers_array PPWG.get_beta self fs)).
Proof.
  split; [| split]; intros self Hb.
  - now apply COAX_pointwise.
  - now apply TWWG_pointwise.
  - now apply PPWG_pointwise.
Qed.

Lemma COAX_principal_root (self : COAX.t) (f : R) :
  0 <= mu_0 -> 0 <= f ->
  COAX_built mu_0 epsilon_0 self -> COAX.sigma self <> None ->
  principal_root COAX.rlgc COAX.L COAX.C COAX.get_gamma COAX.get_alpha COAX.get_beta
                 self f.
Proof.
  intros Hmu0 Hf Hb Hn. pose proof (COAX_built_inv _ _ _ Hb) as I.
  destruct (sigma_some _ Hn) as [s Hs].
  assert (F : exists z, COAX.eps self = Some z /\ COAX.mu self = 1 * mu_0 /\ 0 < s).
  { destruct I as (_ & _ & _ & Hmu & _ & (z & Hz & _) & Hpos). exists z. auto. }
  destruct F as (z & Hz & Hmu & Hs0).
  assert (HRs : Rs_at (COAX.mu self) s f
                = Some (sqrt (2 * PI * f * COAX.mu self / (2 * s)))).
  { apply Rs_at_finite; [rewrite Hmu; lra | assumption | assumption]. }
  exact (gamma_principal_root _ COAX.rlgc COAX.L COAX.C self _ _ _
           (fun f => COAX_rlgc_scalar mu_0 self s z f I Hs Hz) f _
           (COAX_R_at_finite self s f _ HRs)).
Qed.

Lemma COAX_zero_frequency (self : COAX.t) :
  COAX_built mu_0 epsilon_0 self ->
  (forall z, fst (COAX.get_z0 (Scalar 0) self) <> inr (Scalar (Some z))) /\
  (COAX.sigma self <> None -> zero_over_zero COAX.rlgc COAX.C COAX.get_z0 self).
Proof.
  intros Hb. pose proof (COAX_built_inv _ _ _ Hb) as I.
  assert (Hz : exists z, COAX.eps self = Some z).
  { destruct I as (_ & _ & _ & Hmu & _ & (z & Hz & _) & Hpos). now exists z. }
  destruct Hz as [z Hz].
  destruct (COAX.sigma self) as [s |] eqn:Hs.
  - assert (Z : zero_over_zero COAX.rlgc COAX.C COAX.get_z0 self).
    { apply (z0_zero_over_zero _ COAX.rlgc COAX.L COAX.C self _ _ _
               (fun f => COAX_rlgc_scalar mu_0 self s z f I Hs Hz)).
      - apply Rs_at_zero.
      - unfold COAX_R_at. rewrite Rs_at_zero.
        cbn [np_mul np_rmul option_map].
        rewrite np_div_some; [f_equal; unfold Rdiv; ring |].
        apply two_pi_neq_0.
      - unfold COAX_G_at, Rdiv. ring. }
    split; [| intros _; exact Z].
    intros c. destruct Z as (_ & _ & ->). discriminate.
  - split; [| intros N; contradiction].
    intros c. change (fst (COAX.get_z0 (Scalar 0) self))
      with (res_bind (COAX.rlgc self (Scalar 0))
                     (fun l => z0_of l (COAX.L self) (COAX.C self))).
    rewrite COAX_rlgc_none by assumption. discriminate.
Qed.

Lemma TWWG_principal_root (self : TWWG.t) (f : R) :
  0 <= mu_0 -> 0 <= f ->
  TWWG_built mu_0 epsilon_0 self -> TWWG.sigma self <> None ->
  principal_root TWWG.rlgc TWWG.L TWWG.C TWWG.get_gamma TWWG.get_alpha TWWG.get_beta
                 self f.
Proof.
  intros Hmu0 Hf Hb Hn. pose proof (TWWG_built_inv _ _ _ Hb) as I.
  destruct (sigma_some _ Hn) as [s Hs].
  assert (F : exists z, TWWG.eps self = Some z /\ TWWG.mu self = 1 * mu_0 /\ 0 < s /\ 2 * TWWG.a self <> 0).
  { destruct I as (Ha & _ & _ & Hmu & _ & (z & Hz & _) & Hpos). exists z. auto. }
  destruct F as (z & Hz & Hmu & Hs0 & Ha).
  assert (HRs : Rs_at (TWWG.mu self) s f
                = Some (sqrt (2 * PI * f * TWWG.mu self / (2 * s)))).
  { apply Rs_at_finite; [rewrite Hmu; lra | assumption | assumption]. }
  exact (gamma_principal_root _ TWWG.rlgc TWWG.L TWWG.C self _ _ _
           (fun f => TWWG_rlgc_scalar mu_0 self s z f I Hs Hz) f _
           (TWWG_R_at_finite self s f _ Ha HRs)).
Qed.

Lemma TWWG_zero_frequency (self : TWWG.t) :
  TWWG_built mu_0 epsilon_0 self ->
  (forall z, fst (TWWG.get_z0 (Scalar 0) self) <> inr (Scalar (Some z))) /\
  (TWWG.sigma self <> None -> zero_over_zero TWWG.rlgc TWWG.C TWWG.get_z0 self).
Proof.
  intros Hb. pose proof (TWWG_built_inv _ _ _ Hb) as I.
  assert (Hz : exists z, TWWG.eps self = Some z).
  { destruct I as (Ha & _ & _ & Hmu & _ & (z & Hz & _) & Hpos). now exists z. }
  destruct Hz as [z Hz].
  destruct (TWWG.sigma self) as [s |] eqn:Hs.
  - assert (Z : zero_over_zero TWWG.rlgc TWWG.C TWWG.get_z0 self).
    { apply (z0_zero_over_zero _ TWWG.rlgc TWWG.L TWWG.C self _ _ _
               (fun f => TWWG_rlgc_scalar mu_0 self s z f I Hs Hz)).
      - apply Rs_at_zero.
      - unfold TWWG_R_at. rewrite Rs_at_zero.
        cbn [np_mul np_rmul option_map].
        rewrite np_div_some; [f_equal; unfold Rdiv; ring |].
        destruct I as (Ha & _). pose proof PI_RGT_0. nra.
      - unfold TWWG_G_at, Rdiv. ring. }
    split; [| intros _; exact Z].
    intros c. destruct Z as (_ & _ & ->). discriminate.
  - split; [| intros N; contradiction].
    intros c. change (fst (TWWG.get_z0 (Scalar 0) self))
      with (res_bind (TWWG.rlgc self (Scalar 0))
                     (fun l => z0_of l (TWWG.L self) (TWWG.C self))).
    rewrite TWWG_rlgc_none by assumption. discriminate.
Qed.

Lemma PPWG_principal_root (self : PPWG.t) (f : R) :
  0 <= mu_0 -> 0 <= f ->
  PPWG_built mu_0 epsilon_0 self -> PPWG.sigma self <> None ->
  principal_root PPWG.rlgc PPWG.L PPWG.C PPWG.get_gamma PPWG.get_alpha PPWG.get_beta
                 self f.
Proof.
  intros Hmu0 Hf Hb Hn. pose proof (PPWG_built_inv _ _ _ Hb) as I.
  destruct (sigma_some _ Hn) as [s Hs].
  assert (F : exists z, PPWG.eps self = Some z /\ PPWG.mu self = 1 * mu_0 /\ 0 < s /\ PPWG.T self <> 0).
  { destruct I as (_ & HT & Hmu & _ & (z & Hz & _) & Hpos). exists z. auto. }
  destruct F as (z & Hz & Hmu & Hs0 & HT).
  assert (HRs : Rs_at (PPWG.mu self) s f
                = Some (sqrt (2 * PI * f * PPWG.mu self / (2 * s)))).
  { apply Rs_at_finite; [rewrite Hmu; lra | assumption | assumption]. }
  exact (gamma_principal_root _ PPWG.rlgc PPWG.L PPWG.C self _ _ _
           (fun f => PPWG_rlgc_scalar mu_0 self s z f I Hs Hz) f _
           (PPWG_R_at_finite self s f _ HT HRs)).
Qed.

Lemma PPWG_zero_frequency (self : PPWG.t) :
  PPWG_built mu_0 epsilon_0 self ->
  (forall z, fst (PPWG.get_z0 (Scalar 0) self) <> inr (Scalar (Some z))) /\
  (PPWG.sigma self <> None -> zero_over_zero PPWG.rlgc PPWG.C PPWG.get_z0 self).
Proof.
  intros Hb. pose proof (PPWG_built_inv _ _ _ Hb) as I.
  assert (Hz : exists z, PPWG.eps self = Some z).
  { destruct I as (_ & HT & Hmu & _ & (z & Hz & _) & Hpos). now exists z. }
  destruct Hz as [z Hz].
  destruct (PPWG.sigma self) as [s |] eqn:Hs.
  - assert (Z : zero_over_zero PPWG.rlgc PPWG.C PPWG.get_z0 self).
    { apply (z0_zero_over_zero _ PPWG.rlgc PPWG.L PPWG.C self _ _ _
               (fun f => PPWG_rlgc_scalar mu_0 self s z f I Hs Hz)).
      - apply Rs_at_zero.
      - unfold PPWG_R_at. rewrite Rs_at_zero.
        cbn [np_mul np_rmul option_map].
        rewrite np_div_some; [f_equal; unfold Rdiv; ring |].
        now destruct I as (_ & HT & _).
      - unfold PPWG_G_at, Rdiv. ring. }
    split; [| intros _; exact Z].
    intros c. destruct Z as (_ & _ & ->). discriminate.
  - split; [| intros N; contradiction].
    intros c. change (fst (PPWG.get_z0 (Scalar 0) self))
      with (res_bind (PPWG.rlgc self (Scalar 0))
                     (fun l => z0_of l (PPWG.L self) (PPWG.C self))).
    rewrite PPWG_rlgc_none by assumption. discriminate.
Qed.

(** C5.  In every class [get_alpha] returns the real part and [get_beta]
    the imaginary part of what [get_gamma] returns for the same frequency
    argument (and raise what it raises).  On an object a constructor
    returned with a recognised conductor, at a frequency f >= 0,
    [get_gamma] returns the principal square root of (R + jwL)(G + jwC),
    w = 2 pi f, for the values R and G of the query's locals. *)
Theorem alpha_beta_parts_of_gamma :
  (parts_of_gamma COAX.get_gamma COAX.get_alpha COAX.get_beta /\
   parts_of_gamma TWWG.get_gamma TWWG.get_alpha TWWG.get_beta /\
   parts_of_gamma PPWG.get_gamma PPWG.get_alpha PPWG.get_beta) /\
  (0 <= mu_0 ->
   forall f, 0 <= f ->
     (forall self, COAX_built mu_0 epsilon_0 self -> COAX.sigma self <> None ->
        principal_root COAX.rlgc COAX.L COAX.C
                       COAX.get_gamma COAX.get_alpha COAX.get_beta self f) /\
     (forall self, TWWG_built mu_0 epsilon_0 self -> TWWG.sigma self <> None ->
        principal_root TWWG.rlgc TWWG.L TWWG.C
                       TWWG.get_gamma TWWG.get_alpha TWWG.get_beta self f) /\
     (forall self, PPWG_built mu_0 epsilon_0 self -> PPWG.sigma self <> None ->
        principal_root PPWG.rlgc PPWG.L PPWG.C
                       PPWG.get_gamma PPWG.get_alpha PPWG.get_beta self f)).
Proof.
  split.
  - split; [exact (queries_parts_of_gamma _ COAX.rlgc COAX.L COAX.C) |].
    split; [exact (queries_parts_of_gamma _ TWWG.rlgc TWWG.L TWWG.C) |].
    exact (queries_parts_of_gamma _ PPWG.rlgc PPWG.L PPWG.C).
  - intros Hmu f Hf. split; [| split]; intros self Hb Hn.
    + now apply COAX_principal_root.
    + now apply TWWG_principal_root.
    + now apply PPWG_principal_root.
Qed.

(** C10.  On an object a constructor returned, [get_z0(0)] does not return
    a finite complex number.  When the conductor was recognised, the locals
    [Rs], [R] and [G] are exactly 0 at frequency 0, the divisor G + jwC is
    the complex zero, and the unguarded division makes [get_z0] return a
    non-finite value. *)
Theorem impedance_undefined_at_zero_frequency :
  (forall self, COAX_built mu_0 epsilon_0 self ->
     (forall z, fst (COAX.get_z0 (Scalar 0) self) <> inr (Scalar (Some z))) /\
     (COAX.sigma self <> None ->
      zero_over_zero COAX.rlgc COAX.C COAX.get_z0 self)) /\
  (forall self, TWWG_built mu_0 epsilon_0 self ->
     (forall z, fst (TWWG.get_z0 (Scalar 0) self) <> inr (Scalar (Some z))) /\
     (TWWG.sigma self <> None ->
      zero_over_zero TWWG.rlgc TWWG.C TWWG.get_z0 self)) /\
  (forall self, PPWG_built mu_0 epsilon_0 self ->
     (forall z, fst (PPWG.get_z0 (Scalar 0) self) <> inr (Scalar (Some z))) /\
     (PPWG.sigma self <> None ->
      zero_over_zero PPWG.rlgc PPWG.C PPWG.get_z0 self)).
Proof.
  split; [| split]; intros self Hb.
  - now apply COAX_zero_frequency.
  - now apply TWWG_zero_frequency.
  - now apply PPWG_zero_frequency.
Qed.

End QueryProperties.

(** ** The material tables *)

(** The comparisons of a chain, settled one after the other on both sides
    of an equation between two runs of the chain. *)
Ltac same_chain :=
  repeat match goal with
    | |- context [String.eqb ?x ?y] =>
        destruct (String.eqb x y); cbn [orb]; [reflexivity |]
    end.

(** C7.  The conductivity lookup compares the lower-cased name only: two
    names with the same lower-case form get the same answer, so
    cond(s) = cond(lower(s)) for every string s; and cond('Cu'), cond('cu')
    and cond('copper') all return exactly 5.813e7. *)
Theorem conductivity_is_case_insensitive :
  (forall s t, lower s = lower t ->
     fst (materials.cond s) = fst (materials.cond t)) /\
  (forall s, fst (materials.cond s) = fst (materials.cond (lower s))) /\
  materials.cond "Cu" = (inr (Some 5.813e7), []) /\
  materials.cond "cu" = (inr (Some 5.813e7), []) /\
  materials.cond "copper" = (inr (Some 5.813e7), []).
Proof.
  assert (H : forall s t, lower s = lower t ->
                fst (materials.cond s) = fst (materials.cond t)).
  { intros s t E. unfold materials.cond. rewrite E. same_chain. reflexivity. }
  split; [exact H |]. split.
  - intros s. apply H. now rewrite lower_idem.
  - repeat split; reflexivity.
Qed.

Section Permittivity.

Variable epsilon_0 : R.

(** C8.  The permittivity lookup returns eps' - j eps'' with
    eps' = eps_r eps_0 and eps'' = eps_r eps_0 tan(delta), for every name
    and every (eps_r, tan delta) pair of the dielectric table:
    dielec_const('vac') has real part 1 eps_0 and imaginary part 0,
    dielec_const('teflon') has real part 2.08 eps_0 and imaginary part
    -2.08 eps_0 0.0004. *)
Theorem permittivity_from_table :
  materials.dielec_const epsilon_0 "vac"
  = (inr (Some (complex (1 * epsilon_0) 0)), []) /\
  materials.dielec_const epsilon_0 "teflon"
  = (inr (Some (complex (2.08 * epsilon_0) (- 2.08 * epsilon_0 * 0.0004))), []) /\
  (forall names er tand name,
     In (names, (er, tand)) dielectric_table -> In (lower name) names ->
     exists z, materials.dielec_const epsilon_0 name = (inr (Some z), []) /\
               real z = er * epsilon_0 /\
               imag z = - (er * epsilon_0 * tand)).
Proof.
  split; [reflexivity |]. split; [reflexivity |].
  intros names er tand name Ht Hn. unfold dielectric_table in Ht. simpl in Ht.
  unfold materials.dielec_const.
  repeat (destruct Ht as [Ht | Ht];
          [ injection Ht as <- <- <-; simpl in Hn;
            repeat (destruct Hn as [Hn | Hn];
                    [ rewrite <- Hn; simpl; eexists;
                      split; [reflexivity |]; simpl; split; lra |]);
            contradiction |]).
  contradiction.
Qed.

End Permittivity.

Section Coaxial.

Variables mu_0 epsilon_0 : R.

(** C4.  With radii 0 < a < b and a dielectric of the table, the coaxial
    constructor returns an object that has L = mu_0 ln(b/a) / (2 pi) and
    C = 2 pi eps' / ln(b/a), eps' the real part of the permittivity looked
    up, and no query at any frequency changes the object; for a = 1e-3,
    b = 4e-3, copper and vacuum, L = mu_0 ln(4) / (2 pi) and
    C = 2 pi eps_0 / ln(4). *)
Theorem coax_static_parameters :
  (forall a b metal dielec,
     0 < a -> a < b -> recognised dielec_names dielec ->
     exists self z,
       fst (COAX.__init__ mu_0 epsilon_0 a b metal dielec) = inr self /\
       fst (materials.dielec_const epsilon_0 dielec) = inr (Some z) /\
       COAX.L self = mu_0 * ln (b / a) / (2 * PI) /\
       COAX.C self = 2 * PI * real z / ln (b / a) /\
       forall freq,
         snd (COAX.get_z0 freq self) = self /\
         snd (COAX.get_gamma freq self) = self /\
         snd (COAX.get_alpha freq self) = self /\
         snd (COAX.get_beta freq self) = self) /\
  (exists self,
     fst (COAX.__init__ mu_0 epsilon_0 1e-3 4e-3 "copper" "vac") = inr self /\
     COAX.L self = mu_0 * ln 4 / (2 * PI) /\
     COAX.C self = 2 * PI * epsilon_0 / ln 4).
Proof.
  split.
  - intros a b metal dielec Ha Hab Hd.
    destruct (cond_cases metal) as [v [o1 [E1 _]]].
    destruct (dielec_known epsilon_0 dielec Hd) as [er [tand [_ [_ E2]]]].
    eexists. eexists.
    rewrite (COAX_init_ok mu_0 epsilon_0 a b metal dielec _ _ _ _ E1 E2 Ha Hab).
    rewrite E2. cbn [fst COAX.L COAX.C].
    split; [reflexivity |]. split; [reflexivity |].
    split; [now rewrite Rmult_1_l |]. split; [reflexivity |].
    intros freq.
    destruct (queries_read_only _ COAX.rlgc COAX.L COAX.C freq)
      as (h1 & h2 & h3 & h4).
    exact (conj (h1 _) (conj (h2 _) (conj (h3 _) (h4 _)))).
  - eexists.
    rewrite (COAX_init_ok mu_0 epsilon_0 1e-3 4e-3 "copper" "vac"
               (Some 5.813e7) (complex (1 * epsilon_0) 0) [] []);
      [| reflexivity | reflexivity | lra | lra].
    cbn [fst COAX.L COAX.C real].
    replace (4e-3 / 1e-3) with 4 by lra.
    split; [reflexivity |]. now rewrite !Rmult_1_l.
Qed.

End Coaxial.

(** ** The sign of the shunt conductance *)

Section ShuntConductance.

Variables mu_0 epsilon_0 : R.

Lemma negative_quotient (k e l : R) :
  0 < k -> 0 < e -> 0 < l -> k * - e / l = - (k * e / l) /\ k * - e / l < 0.
Proof.
  intros Hk He Hl.
  assert (E : k * - e / l = - (k * e / l)) by (unfold Rdiv; ring).
  split; [exact E |]. rewrite E.
  assert (0 < k * e / l).
  { apply Rdiv_lt_0_compat; [apply Rmult_lt_0_compat |]; assumption. }
  lra.
Qed.

(** C3, on the code.  For the three lines of the demonstration script
    filled with teflon instead of vacuum, at 1 GHz, the local [G] of the
    queries is the closed form of the class (2 pi w eps'' / ln(b/a),
    pi w eps'' / acosh(S/(2a)), w eps'' T / S) with the opposite sign,
    eps'' = 2.08 eps_0 0.0004 being the loss part of the permittivity: a
    negative number. *)
Theorem shunt_conductance_negative_for_teflon :
  0 < epsilon_0 ->
  (exists self w Rs Rv g,
     fst (COAX.__init__ mu_0 epsilon_0 1e-3 4e-3 "cu" "teflon") = inr self /\
     COAX.rlgc self (Scalar 1e9) = inr (w, Rs, Rv, Scalar (Some g)) /\
     g = - (2 * PI * (2 * PI * 1e9) * (2.08 * epsilon_0 * 0.0004)
            / ln (4e-3 / 1e-3)) /\
     g < 0) /\
  (exists self w Rs Rv g,
     fst (TWWG.__init__ mu_0 epsilon_0 3.5e-3 1e-3 "cu" "teflon") = inr self /\
     TWWG.rlgc self (Scalar 1e9) = inr (w, Rs, Rv, Scalar (Some g)) /\
     g = - (PI * (2 * PI * 1e9) * (2.08 * epsilon_0 * 0.0004)
            / acosh (3.5e-3 / (2 * 1e-3))) /\
     g < 0) /\
  (exists self w Rs Rv g,
     fst (PPWG.__init__ mu_0 epsilon_0 3e-3 3e-3 "cu" "teflon") = inr self /\
     PPWG.rlgc self (Scalar 1e9) = inr (w, Rs, Rv, Scalar (Some g)) /\
     g = - (2 * PI * 1e9 * (2.08 * epsilon_0 * 0.0004) * 3e-3 / 3e-3) /\
     g < 0).
Proof.
  intros He. pose proof PI_RGT_0 as Hpi.
  assert (Hloss : - 2.08 * epsilon_0 * 0.0004 = - (2.08 * epsilon_0 * 0.0004))
    by lra.
  split; [| split].
  - pose proof (COAX_init_ok mu_0 epsilon_0 1e-3 4e-3 "cu" "teflon"
                  (Some 5.813e7)
                  (complex (2.08 * epsilon_0) (- 2.08 * epsilon_0 * 0.0004)) [] []
                  eq_refl eq_refl ltac:(lra) ltac:(lra)) as Hi.
    apply (f_equal fst) in Hi. cbn [fst] in Hi.
    destruct (COAX_init_inv _ _ _ _ _ _ _ Hi) as (I & _).
    eexists. do 4 eexists. split; [exact Hi |].
    split; [exact (COAX_rlgc_scalar mu_0 _ _ _ 1e9 I eq_refl eq_refl) |].
    unfold COAX_G_at. cbn [COAX.a COAX.b imag]. rewrite Hloss.
    apply negative_quotient; [nra | lra | apply ln_ratio_pos; lra].
  - pose proof (TWWG_init_ok mu_0 epsilon_0 3.5e-3 1e-3 "cu" "teflon"
                  (Some 5.813e7)
                  (complex (2.08 * epsilon_0) (- 2.08 * epsilon_0 * 0.0004)) [] []
                  eq_refl eq_refl ltac:(lra) ltac:(lra)) as Hi.
    apply (f_equal fst) in Hi. cbn [fst] in Hi.
    destruct (TWWG_init_inv _ _ _ _ _ _ _ Hi) as (I & _).
    eexists. do 4 eexists. split; [exact Hi |].
    split; [exact (TWWG_rlgc_scalar mu_0 _ _ _ 1e9 I eq_refl eq_refl) |].
    unfold TWWG_G_at. cbn [TWWG.S TWWG.a imag]. rewrite Hloss.
    apply negative_quotient; [nra | lra | apply acosh_pos; lra].
  - pose proof (PPWG_init_ok mu_0 epsilon_0 3e-3 3e-3 "cu" "teflon"
                  (Some 5.813e7)
                  (complex (2.08 * epsilon_0) (- 2.08 * epsilon_0 * 0.0004)) [] []
                  eq_refl eq_refl ltac:(lra) ltac:(lra)) as Hi.
    apply (f_equal fst) in Hi. cbn [fst] in Hi.
    destruct (PPWG_init_inv _ _ _ _ _ _ _ Hi) as (I & _).
    eexists. do 4 eexists. split; [exact Hi |].
    split; [exact (PPWG_rlgc_scalar mu_0 _ _ _ 1e9 I eq_refl eq_refl) |].
    unfold PPWG_G_at. cbn [PPWG.S PPWG.T imag]. rewrite Hloss.
    set (e := 2.08 * epsilon_0 * 0.0004) in *.
    assert (He' : 0 < e) by (unfold e; lra).
    replace (2 * PI * 1e9 * - e * 3e-3 / 3e-3) with (2 * PI * 1e9 * 3e-3 * - e / 3e-3)
      by (unfold Rdiv; ring).
    replace (2 * PI * 1e9 * e * 3e-3 / 3e-3) with (2 * PI * 1e9 * 3e-3 * e / 3e-3)
      by (unfold Rdiv; ring).
    apply negative_quotient; [nra | assumption | lra].
Qed.

End ShuntConductance.

(** ** The properties on concrete lines

    The three lines of the demonstration script (wg_test.py): copper in
    vacuum, a coaxial line a = 1 mm, b = 4 mm, a two-wire line S = 3.5 mm,
    a = 1 mm, and parallel plates S = T = 3 mm. *)

Lemma example_coax :
  exists self,
    fst (COAX.__init__ mu_0_2018 epsilon_0_2018 1e-3 4e-3 "Cu" "vac") = inr self /\
    COAX.sigma self = Some 5.813e7.
Proof.
  eexists.
  rewrite (COAX_init_ok mu_0_2018 epsilon_0_2018 1e-3 4e-3 "Cu" "vac"
             (Some 5.813e7) (complex (1 * epsilon_0_2018) 0) [] []);
    [| reflexivity | reflexivity | lra | lra].
  split; reflexivity.
Qed.

Lemma example_twwg :
  exists self,
    fst (TWWG.__init__ mu_0_2018 epsilon_0_2018 3.5e-3 1e-3 "Cu" "vac") = inr self /\
    TWWG.sigma self = Some 5.813e7.
Proof.
  eexists.
  rewrite (TWWG_init_ok mu_0_2018 epsilon_0_2018 3.5e-3 1e-3 "Cu" "vac"
             (Some 5.813e7) (complex (1 * epsilon_0_2018) 0) [] []);
    [| reflexivity | reflexivity | lra | lra].
  split; reflexivity.
Qed.

Lemma example_ppwg :
  exists self,
    fst (PPWG.__init__ mu_0_2018 epsilon_0_2018 3e-3 3e-3 "Cu" "vac") = inr self /\
    PPWG.sigma self = Some 5.813e7.
Proof.
  eexists.
  rewrite (PPWG_init_ok mu_0_2018 epsilon_0_2018 3e-3 3e-3 "Cu" "vac"
             (Some 5.813e7) (complex (1 * epsilon_0_2018) 0) [] []);
    [| reflexivity | reflexivity | lra | lra].
  split; reflexivity.
Qed.

Lemma no_exception_named (A : Type) (c : Py A) (cls : string) :
  (forall e, exn_name e <> cls) -> ~ raises c cls.
Proof. intros H (e & _ & E). now apply (H e). Qed.

Lemma returns_not_raises (A : Type) (c : Py A) (a : A) (cls : string) :
  fst c = inr a -> ~ raises c cls.
Proof. intros H (e & E & _). congruence. Qed.

(** C1, as stated, fails: the coaxial constructor given the conductor name
    'unobtainium' raises nothing and returns an object whose [sigma] is
    [None]; given the dielectric name 'unobtainium' it raises
    [AttributeError], not [UnknownMaterialError]. *)
Lemma unknown_material_not_raised :
  (exists self,
     fst (COAX.__init__ mu_0_2018 epsilon_0_2018 1e-3 4e-3 "unobtainium" "vac")
     = inr self /\ COAX.sigma self = None) /\
  ~ raises (COAX.__init__ mu_0_2018 epsilon_0_2018 1e-3 4e-3 "unobtainium" "vac")
           "UnknownMaterialError" /\
  fst (COAX.__init__ mu_0_2018 epsilon_0_2018 1e-3 4e-3 "Cu" "unobtainium")
  = inl AttributeError /\
  ~ raises (COAX.__init__ mu_0_2018 epsilon_0_2018 1e-3 4e-3 "Cu" "unobtainium")
           "UnknownMaterialError".
Proof.
  assert (Hn : ~ recognised cond_names "unobtainium")
    by (apply not_In_table; reflexivity).
  assert (Hd : ~ recognised dielec_names "unobtainium")
    by (apply not_In_table; reflexivity).
  pose proof (COAX_init_ok mu_0_2018 epsilon_0_2018 1e-3 4e-3 "unobtainium" "vac"
                None (complex (1 * epsilon_0_2018) 0) _ []
                (cond_unknown _ Hn) eq_refl ltac:(lra) ltac:(lra)) as Hi.
  apply (f_equal fst) in Hi. cbn [fst] in Hi.
  split; [eexists; split; [exact Hi | reflexivity] |].
  split; [eapply returns_not_raises; exact Hi |].
  split.
  - apply COAX_unknown_dielec; [assumption | lra | lra].
  - apply no_exception_named. intros []; discriminate.
Qed.

(** C2, as stated, fails: the two-wire constructor with S = 2a raises
    [ZeroDivisionError] and with S < 2a raises [ValueError]; neither is an
    [InvalidGeometryError]. *)
Lemma two_wire_error_is_builtin :
  fst (TWWG.__init__ mu_0_2018 epsilon_0_2018 2e-3 1e-3 "Cu" "vac")
  = inl ZeroDivisionError /\
  fst (TWWG.__init__ mu_0_2018 epsilon_0_2018 1e-3 1e-3 "Cu" "vac")
  = inl ValueError /\
  ~ raises (TWWG.__init__ mu_0_2018 epsilon_0_2018 2e-3 1e-3 "Cu" "vac")
           "InvalidGeometryError" /\
  ~ raises (TWWG.__init__ mu_0_2018 epsilon_0_2018 1e-3 1e-3 "Cu" "vac")
           "InvalidGeometryError".
Proof.
  assert (Hm : recognised cond_names "Cu") by (apply In_table; reflexivity).
  assert (Hd : recognised dielec_names "vac") by (apply In_table; reflexivity).
  split; [| split; [| split]].
  - rewrite (TWWG_init_degenerate _ _ 2e-3 1e-3 "Cu" "vac") by (assumption || lra).
    destruct (Rlt_dec 2e-3 (2 * 1e-3)); [lra | reflexivity].
  - rewrite (TWWG_init_degenerate _ _ 1e-3 1e-3 "Cu" "vac") by (assumption || lra).
    destruct (Rlt_dec 1e-3 (2 * 1e-3)); [reflexivity | lra].
  - apply no_exception_named. intros []; discriminate.
  - apply no_exception_named. intros []; discriminate.
Qed.

Lemma unknown_material_printed_none_witness :
  materials.cond "unobtainium"
  = (inr None, [not_supported "unobtainium" "cond(material)"]) /\
  (exists m,
     fst (COAX.__init__ mu_0_2018 epsilon_0_2018 1e-3 4e-3 "unobtainium" "vac")
     = inr m /\ COAX.sigma m = None) /\
  fst (PPWG.__init__ mu_0_2018 epsilon_0_2018 3e-3 3e-3 "Cu" "unobtainium")
  = inl AttributeError.
Proof.
  destruct (unknown_material_printed_none mu_0_2018 epsilon_0_2018
              "unobtainium" "Cu" "vac") as [H1 H2].
  destruct H1 as [Hc Hk]; [apply not_In_table; reflexivity |].
  destruct H2 as [_ Hk2]; [apply not_In_table; reflexivity |].
  split; [exact Hc |]. split.
  - apply (Hk ltac:(apply In_table; reflexivity) 1e-3 4e-3); lra.
  - apply (Hk2 3e-3 3e-3). lra.
Defined.

Lemma two_wire_bad_geometry_fails_witness :
  exists e,
    fst (TWWG.__init__ mu_0_2018 epsilon_0_2018 2e-3 1e-3 "Cu" "vac") = inl e /\
    (2e-3 < 2 * 1e-3 -> e = ValueError) /\
    (2e-3 = 2 * 1e-3 -> e = ZeroDivisionError).
Proof.
  apply two_wire_bad_geometry_fails;
    [lra | lra | apply In_table; reflexivity | apply In_table; reflexivity].
Defined.

Lemma shunt_conductance_negative_for_teflon_witness :
  exists self w Rs Rv g,
    fst (COAX.__init__ mu_0_2018 epsilon_0_2018 1e-3 4e-3 "cu" "teflon")
    = inr self /\
    COAX.rlgc self (Scalar 1e9) = inr (w, Rs, Rv, Scalar (Some g)) /\
    g = - (2 * PI * (2 * PI * 1e9) * (2.08 * epsilon_0_2018 * 0.0004)
           / ln (4e-3 / 1e-3)) /\
    g < 0.
Proof.
  apply (shunt_conductance_negative_for_teflon mu_0_2018 epsilon_0_2018).
  unfold epsilon_0_2018. lra.
Defined.

Lemma coax_static_parameters_witness :
  exists self z,
    fst (COAX.__init__ mu_0_2018 epsilon_0_2018 1e-3 4e-3 "Cu" "vac") = inr self /\
    fst (materials.dielec_const epsilon_0_2018 "vac") = inr (Some z) /\
    COAX.L self = mu_0_2018 * ln (4e-3 / 1e-3) / (2 * PI) /\
    COAX.C self = 2 * PI * real z / ln (4e-3 / 1e-3).
Proof.
  destruct (coax_static_parameters mu_0_2018 epsilon_0_2018) as [H _].
  destruct (H 1e-3 4e-3 "Cu" "vac") as (self & z & H1 & H2 & H3 & H4 & _);
    [lra | lra | apply In_table; reflexivity |].
  exists self, z. auto.
Defined.

Lemma alpha_beta_parts_of_gamma_witness :
  exists self,
    fst (COAX.__init__ mu_0_2018 epsilon_0_2018 1e-3 4e-3 "Cu" "vac") = inr self /\
    principal_root COAX.rlgc COAX.L COAX.C
                   COAX.get_gamma COAX.get_alpha COAX.get_beta self 1e9.
Proof.
  destruct example_coax as (self & Hi & Hs). exists self. split; [exact Hi |].
  destruct (alpha_beta_parts_of_gamma mu_0_2018 epsilon_0_2018) as [_ H].
  destruct (H ltac:(unfold mu_0_2018; lra) 1e9 ltac:(lra)) as (Hc & _ & _).
  apply Hc.
  - now exists 1e-3, 4e-3, "Cu", "vac".
  - rewrite Hs. discriminate.
Defined.

Lemma queries_map_over_frequencies_witness :
  exists self,
    fst (TWWG.__init__ mu_0_2018 epsilon_0_2018 3.5e-3 1e-3 "Cu" "vac") = inr self /\
    pointwise TWWG.get_alpha self [0.1e12; 1.55e12; 3e12] /\
    answers_array TWWG.get_alpha self [0.1e12; 1.55e12; 3e12].
Proof.
  destruct example_twwg as (self & Hi & Hs). exists self. split; [exact Hi |].
  destruct (queries_map_over_frequencies mu_0_2018 epsilon_0_2018
              [0.1e12; 1.55e12; 3e12]) as (_ & Ht & _).
  destruct (Ht self) as ((_ & _ & Hp & _) & Ha).
  - now exists 3.5e-3, 1e-3, "Cu", "vac".
  - split; [exact Hp |]. apply Ha. rewrite Hs. discriminate.
Defined.

Lemma impedance_undefined_at_zero_frequency_witness :
  exists self,
    fst (PPWG.__init__ mu_0_2018 epsilon_0_2018 3e-3 3e-3 "Cu" "vac") = inr self /\
    zero_over_zero PPWG.rlgc PPWG.C PPWG.get_z0 self.
Proof.
  destruct example_ppwg as (self & Hi & Hs). exists self. split; [exact Hi |].
  destruct (impedance_undefined_at_zero_frequency mu_0_2018 epsilon_0_2018)
    as (_ & _ & Hp).
  destruct (Hp self) as (_ & Hz).
  - now exists 3e-3, 3e-3, "Cu", "vac".
  - apply Hz. rewrite Hs. discriminate.
Defined.

Lemma conductivity_is_case_insensitive_witness :
  fst (materials.cond "COPPER") = fst (materials.cond "Copper").
Proof.
  destruct conductivity_is_case_insensitive as [H _].
  apply H. reflexivity.
Defined.

Lemma permittivity_from_table_witness :
  exists z,
    materials.dielec_const epsilon_0_2018 "PTFE" = (inr (Some z), []) /\
    real z = 2.08 * epsilon_0_2018 /\
    imag z = - (2.08 * epsilon_0_2018 * 0.0004).
Proof.
  destruct (permittivity_from_table epsilon_0_2018) as (_ & _ & H).
  apply (H ["teflon"; "ptfe"] 2.08 0.0004 "PTFE").
  - unfold dielectric_table. simpl. tauto.
  - simpl. tauto.
Defined.

(** * Further properties of the two modules *)

(** ** materials.py: the tables *)



Section TableSigns.

Variable epsilon_0 : R.

(** X2.  Every conductivity [cond] returns is positive.  With a positive
    vacuum permittivity, every permittivity [dielec_const] returns has a
    positive real part and an imaginary part that is negative or zero, and
    it is zero for the two names of vacuum only. *)
Theorem material_constants_signs :
  0 < epsilon_0 ->
  (forall name v, fst (materials.cond name) = inr (Some v) -> 0 < v) /\
  (forall name z,
     fst (materials.dielec_const epsilon_0 name) = inr (Some z) ->
     0 < real z /\ imag z <= 0 /\
     (imag z = 0 <-> In (lower name) ["vacuum"; "vac"])).
Proof.
  intros He. split.
  - intros name v H.
    destruct (cond_cases name) as [w [out [E [Hpos _]]]].
    rewrite E in H. cbn [fst] in H. injection H as ->. now apply Hpos.
  - intros name z H.
    destruct (recognised_dec dielec_names name) as [Hr | Hr];
      [| rewrite (dielec_unknown _ _ Hr) in H; discriminate].
    unfold recognised, dielec_names in Hr. simpl in Hr.
    unfold materials.dielec_const in H.
    repeat (destruct Hr as [Hr | Hr];
            [ rewrite <- Hr in H |- *; simpl in H; injection H as <-;
              cbn [real imag];
              split; [lra |]; split; [lra |];
              split;
              [ intros E; first [ exfalso; lra | simpl; tauto ]
              | intros [E | [E | []]]; first [ discriminate | lra ] ] |]).
    contradiction.
Qed.

(** X3.  [dielec_const] compares the lower-cased name only: two names with
    the same lower-case form get the same answer. *)
Theorem permittivity_is_case_insensitive :
  forall s t, lower s = lower t ->
    fst (materials.dielec_const epsilon_0 s)
    = fst (materials.dielec_const epsilon_0 t).
Proof.
  intros s t E. unfold materials.dielec_const. rewrite E. same_chain.
  reflexivity.
Qed.

End TableSigns.

Lemma material_constants_signs_witness :
  (forall v, fst (materials.cond "Seawater") = inr (Some v) -> 0 < v) /\
  (forall z,
     fst (materials.dielec_const epsilon_0_2018 "GaAs") = inr (Some z) ->
     0 < real z /\ imag z <= 0 /\
     (imag z = 0 <-> In (lower "GaAs") ["vacuum"; "vac"])).
Proof.
  destruct (material_constants_signs epsilon_0_2018) as [H1 H2].
  - unfold epsilon_0_2018. lra.
  - split; [apply H1 | apply H2].
Defined.

Lemma permittivity_is_case_insensitive_witness :
  fst (materials.dielec_const epsilon_0_2018 "TEFLON")
  = fst (materials.dielec_const epsilon_0_2018 "Teflon").
Proof. apply permittivity_is_case_insensitive. reflexivity. Defined.

(** ** wg.py: what the constructors accept *)

Lemma ln_zero_iff (q : R) : 0 < q -> (ln q = 0 <-> q = 1).
Proof.
  intros Hq. split.
  - intros H. apply ln_inv; [assumption | lra |]. now rewrite ln_1.
  - intros ->. apply ln_1.
Qed.

Lemma ratio_one_iff (a b : R) : a <> 0 -> (b / a = 1 <-> b = a).
Proof.
  intros Ha. split.
  - intros H. replace b with (b / a * a) by (field; assumption).
    rewrite H. ring.
  - intros ->. field. assumption.
Qed.

Lemma acosh_zero_iff (q : R) : 1 <= q -> (acosh q = 0 <-> q = 1).
Proof.
  intros Hq. split.
  - intros H. destruct Hq as [Hq | Hq]; [| now symmetry].
    pose proof (acosh_pos q Hq). lra.
  - intros ->. apply acosh_1.
Qed.

Section ConstructorOutcomes.

Variables mu_0 epsilon_0 : R.

(** X4.  [COAX(a, b, metal, dielec)] prints what the two lookups print,
    the conductor's line first, whatever its outcome, and checks nothing
    itself: it raises [ZeroDivisionError] for a = 0, else [ValueError] when
    b/a <= 0, else [AttributeError] for an unrecognised dielectric, else
    [ZeroDivisionError] for b = a, and in every other case (b < a and
    negative radii of equal sign included) returns an object that holds its
    arguments, what the lookups returned and mu_0. *)
Theorem coax_constructor_outcome (a b : R) (metal dielec : string) :
  let c := COAX.__init__ mu_0 epsilon_0 a b metal dielec in
  snd c = (snd (materials.cond metal)
           ++ snd (materials.dielec_const epsilon_0 dielec))%list /\
  (a = 0 -> fst c = inl ZeroDivisionError) /\
  (a <> 0 -> b / a <= 0 -> fst c = inl ValueError) /\
  (a <> 0 -> 0 < b / a -> ~ recognised dielec_names dielec ->
   fst c = inl AttributeError) /\
  (a <> 0 -> b = a -> recognised dielec_names dielec ->
   fst c = inl ZeroDivisionError) /\
  (a <> 0 -> 0 < b / a -> b <> a -> recognised dielec_names dielec ->
   exists self,
     fst c = inr self /\
     COAX.a self = a /\ COAX.b self = b /\ COAX.mu self = 1 * mu_0 /\
     inr (COAX.sigma self) = fst (materials.cond metal) /\
     inr (COAX.eps self) = fst (materials.dielec_const epsilon_0 dielec)).
Proof.
  destruct (cond_cases metal) as [sg [o1 [E1 _]]].
  destruct (dielec_cases epsilon_0 dielec) as [d [o2 [E2 Hd]]].
  cbv zeta. unfold COAX.__init__. rewrite E1, E2.
  unfold py_bind, py_lift, pydiv, math_log. cbn [fst snd].
  split; [now rewrite app_nil_r |].
  destruct (Req_dec_T a 0) as [Ea | Ha]; cbn [res_bind].
  { repeat split; intros; solve [reflexivity | contradiction]. }
  destruct (Rle_dec (b / a) 0) as [Hle | Hq]; cbn [res_bind].
  { repeat split; intros; try solve [reflexivity | contradiction | lra].
    subst b. exfalso. unfold Rdiv in Hle. rewrite Rinv_r in Hle; lra. }
  apply Rnot_le_lt in Hq.
  destruct d as [z |]; cbn [attr_real res_bind].
  - assert (Hrec : recognised dielec_names dielec).
    { destruct (recognised_dec dielec_names dielec) as [H | H]; [assumption |].
      apply Hd in H. discriminate. }
    destruct (Req_dec_T (ln (b / a)) 0) as [El | Hl]; cbn [res_bind].
    + assert (Hba : b = a).
      { apply ratio_one_iff; [assumption |]. now apply ln_zero_iff. }
      repeat split; intros; solve [reflexivity | contradiction | lra].
    + assert (Hba : b <> a).
      { intros E. apply Hl. apply ln_zero_iff; [assumption |].
        now apply ratio_one_iff. }
      split; [intros; contradiction |]. split; [intros; lra |].
      split; [intros; contradiction |]. split; [intros; contradiction |].
      intros _ _ _ _. eexists. split; [reflexivity |].
      cbn. repeat split; reflexivity.
  - assert (Hn : ~ recognised dielec_names dielec) by now apply Hd.
    repeat split; intros; solve [reflexivity | contradiction | lra].
Qed.

(** X5.  [TWWG(S, a, metal, dielec)] prints what the two lookups print and
    checks nothing itself: it raises [ZeroDivisionError] for a = 0, else
    [ValueError] when S/(2a) < 1, else [AttributeError] for an unrecognised
    dielectric, else [ZeroDivisionError] for S = 2a, and in every other
    case (S and a both negative included) returns an object that holds its
    arguments, what the lookups returned and mu_0. *)
Theorem two_wire_constructor_outcome (S a : R) (metal dielec : string) :
  let c := TWWG.__init__ mu_0 epsilon_0 S a metal dielec in
  snd c = (snd (materials.cond metal)
           ++ snd (materials.dielec_const epsilon_0 dielec))%list /\
  (a = 0 -> fst c = inl ZeroDivisionError) /\
  (a <> 0 -> S / (2 * a) < 1 -> fst c = inl ValueError) /\
  (a <> 0 -> 1 <= S / (2 * a) -> ~ recognised dielec_names dielec ->
   fst c = inl AttributeError) /\
  (a <> 0 -> S = 2 * a -> recognised dielec_names dielec ->
   fst c = inl ZeroDivisionError) /\
  (a <> 0 -> 1 < S / (2 * a) -> recognised dielec_names dielec ->
   exists self,
     fst c = inr self /\
     TWWG.S self = S /\ TWWG.a self = a /\ TWWG.mu self = 1 * mu_0 /\
     inr (TWWG.sigma self) = fst (materials.cond metal) /\
     inr (TWWG.eps self) = fst (materials.dielec_const epsilon_0 dielec)).
Proof.
  destruct (cond_cases metal) as [sg [o1 [E1 _]]].
  destruct (dielec_cases epsilon_0 dielec) as [d [o2 [E2 Hd]]].
  cbv zeta. unfold TWWG.__init__. rewrite E1, E2.
  unfold py_bind, py_lift, pydiv, math_acosh. cbn [fst snd].
  split; [now rewrite app_nil_r |].
  destruct (Req_dec_T (2 * a) 0) as [Ea | Ha]; cbn [res_bind].
  { assert (a = 0) by lra.
    repeat split; intros; solve [reflexivity | contradiction]. }
  assert (Ha' : a <> 0) by lra.
  assert (Hone : S = 2 * a -> S / (2 * a) = 1).
  { intros ->. now apply ratio_one_iff. }
  destruct (Rlt_dec (S / (2 * a)) 1) as [Hlt | Hq]; cbn [res_bind].
  { split; [intros; contradiction |]. split; [reflexivity |].
    split; [intros; lra |].
    split; [intros _ E _; rewrite (Hone E) in Hlt; lra |].
    intros; lra. }
  apply Rnot_lt_le in Hq.
  destruct d as [z |]; cbn [attr_real res_bind].
  - assert (Hrec : recognised dielec_names dielec).
    { destruct (recognised_dec dielec_names dielec) as [H | H]; [assumption |].
      apply Hd in H. discriminate. }
    destruct (Req_dec_T (acosh (S / (2 * a))) 0) as [El | Hl]; cbn [res_bind].
    + apply acosh_zero_iff in El; [| assumption].
      repeat split; intros; solve [reflexivity | contradiction | lra].
    + assert (Hne : S / (2 * a) <> 1).
      { intros E. apply Hl. now apply acosh_zero_iff. }
      split; [intros; contradiction |]. split; [intros; lra |].
      split; [intros; contradiction |].
      split; [intros _ E _; exfalso; apply Hne; now apply Hone |].
      intros _ _ _. eexists. split; [reflexivity |].
      cbn. repeat split; reflexivity.
  - assert (Hn : ~ recognised dielec_names dielec) by now apply Hd.
    repeat split; intros; solve [reflexivity | contradiction | lra].
Qed.

(** X6.  [PPWG(S, T, metal, dielec)] prints what the two lookups print and
    checks nothing itself: it raises [ZeroDivisionError] for T = 0, else
    [AttributeError] for an unrecognised dielectric, else
    [ZeroDivisionError] for S = 0, and in every other case (negative
    dimensions included) returns an object that holds its arguments, what
    the lookups returned and mu_0. *)
Theorem parallel_plate_constructor_outcome (S T : R) (metal dielec : string) :
  let c := PPWG.__init__ mu_0 epsilon_0 S T metal dielec in
  snd c = (snd (materials.cond metal)
           ++ snd (materials.dielec_const epsilon_0 dielec))%list /\
  (T = 0 -> fst c = inl ZeroDivisionError) /\
  (T <> 0 -> ~ recognised dielec_names dielec -> fst c = inl AttributeError) /\
  (T <> 0 -> S = 0 -> recognised dielec_names dielec ->
   fst c = inl ZeroDivisionError) /\
  (T <> 0 -> S <> 0 -> recognised dielec_names dielec ->
   exists self,
     fst c = inr self /\
     PPWG.S self = S /\ PPWG.T self = T /\ PPWG.mu self = 1 * mu_0 /\
     inr (PPWG.sigma self) = fst (materials.cond metal) /\
     inr (PPWG.eps self) = fst (materials.dielec_const epsilon_0 dielec)).
Proof.
  destruct (cond_cases metal) as [sg [o1 [E1 _]]].
  destruct (dielec_cases epsilon_0 dielec) as [d [o2 [E2 Hd]]].
  cbv zeta. unfold PPWG.__init__. rewrite E1, E2.
  unfold py_bind, py_lift, pydiv. cbn [fst snd].
  split; [now rewrite app_nil_r |].
  destruct (Req_dec_T T 0) as [ET | HT]; cbn [res_bind].
  { repeat split; intros; solve [reflexivity | contradiction]. }
  destruct d as [z |]; cbn [attr_real res_bind].
  - assert (Hrec : recognised dielec_names dielec).
    { destruct (recognised_dec dielec_names dielec) as [H | H]; [assumption |].
      apply Hd in H. discriminate. }
    destruct (Req_dec_T S 0) as [ES | HS]; cbn [res_bind].
    + repeat split; intros; solve [reflexivity | contradiction].
    + split; [intros; contradiction |]. split; [intros; contradiction |].
      split; [intros; contradiction |].
      intros _ _ _. eexists. split; [reflexivity |].
      cbn. repeat split; reflexivity.
  - assert (Hn : ~ recognised dielec_names dielec) by now apply Hd.
    repeat split; intros; solve [reflexivity | contradiction].
Qed.

End ConstructorOutcomes.

Lemma coax_constructor_outcome_witness :
  exists self,
    fst (COAX.__init__ mu_0_2018 epsilon_0_2018 4e-3 1e-3 "Cu" "vac") = inr self /\
    COAX.a self = 4e-3 /\ COAX.b self = 1e-3.
Proof.
  destruct (coax_constructor_outcome mu_0_2018 epsilon_0_2018 4e-3 1e-3 "Cu" "vac")
    as (_ & _ & _ & _ & _ & H).
  destruct H as (self & H1 & H2 & H3 & _);
    [lra | lra | lra | apply In_table; reflexivity |].
  exists self. auto.
Defined.

Lemma two_wire_constructor_outcome_witness :
  exists self,
    fst (TWWG.__init__ mu_0_2018 epsilon_0_2018 (-3.5e-3) (-1e-3) "Cu" "vac")
    = inr self /\
    TWWG.S self = -3.5e-3 /\ TWWG.a self = -1e-3.
Proof.
  destruct (two_wire_constructor_outcome mu_0_2018 epsilon_0_2018
              (-3.5e-3) (-1e-3) "Cu" "vac") as (_ & _ & _ & _ & _ & H).
  destruct H as (self & H1 & H2 & H3 & _);
    [lra | lra | apply In_table; reflexivity |].
  exists self. auto.
Defined.

Lemma parallel_plate_constructor_outcome_witness :
  fst (PPWG.__init__ mu_0_2018 epsilon_0_2018 0 3e-3 "Cu" "vac")
  = inl ZeroDivisionError.
Proof.
  destruct (parallel_plate_constructor_outcome mu_0_2018 epsilon_0_2018
              0 3e-3 "Cu" "vac") as (_ & _ & _ & H & _).
  apply H; [lra | reflexivity | apply In_table; reflexivity].
Defined.

(** ** wg.py: the objects the constructors return *)

Section BuiltObjects.

Variables mu_0 epsilon_0 : R.

Lemma COAX_init_eps (a b : R) (metal dielec : string) (self : COAX.t) :
  fst (COAX.__init__ mu_0 epsilon_0 a b metal dielec) = inr self ->
  inr (COAX.eps self) = fst (materials.dielec_const epsilon_0 dielec).
Proof.
  destruct (cond_cases metal) as [sg [o1 [E1 _]]].
  destruct (dielec_cases epsilon_0 dielec) as [d [o2 [E2 _]]].
  unfold COAX.__init__. rewrite E1, E2.
  unfold py_bind, py_lift, pydiv, math_log. cbn [fst].
  destruct (Req_dec_T a 0); cbn [res_bind]; [discriminate |].
  destruct (Rle_dec (b / a) 0); cbn [res_bind]; [discriminate |].
  destruct d as [z |]; cbn [attr_real res_bind]; [| discriminate].
  destruct (Req_dec_T (ln (b / a)) 0); cbn [res_bind]; [discriminate |].
  now intros [= <-].
Qed.

Lemma TWWG_init_eps (S a : R) (metal dielec : string) (self : TWWG.t) :
  fst (TWWG.__init__ mu_0 epsilon_0 S a metal dielec) = inr self ->
  inr (TWWG.eps self) = fst (materials.dielec_const epsilon_0 dielec).
Proof.
  destruct (cond_cases metal) as [sg [o1 [E1 _]]].
  destruct (dielec_cases epsilon_0 dielec) as [d [o2 [E2 _]]].
  unfold TWWG.__init__. rewrite E1, E2.
  unfold py_bind, py_lift, pydiv, math_acosh. cbn [fst].
  destruct (Req_dec_T (2 * a) 0); cbn [res_bind]; [discriminate |].
  destruct (Rlt_dec (S / (2 * a)) 1); cbn [res_bind]; [discriminate |].
  destruct d as [z |]; cbn [attr_real res_bind]; [| discriminate].
  destruct (Req_dec_T (acosh (S / (2 * a))) 0); cbn [res_bind]; [discriminate |].
  now intros [= <-].
Qed.

Lemma PPWG_init_eps (S T : R) (metal dielec : string) (self : PPWG.t) :
  fst (PPWG.__init__ mu_0 epsilon_0 S T metal dielec) = inr self ->
  inr (PPWG.eps self) = fst (materials.dielec_const epsilon_0 dielec).
Proof.
  destruct (cond_cases metal) as [sg [o1 [E1 _]]].
  destruct (dielec_cases epsilon_0 dielec) as [d [o2 [E2 _]]].
  unfold PPWG.__init__. rewrite E1, E2.
  unfold py_bind, py_lift, pydiv. cbn [fst].
  destruct (Req_dec_T T 0); cbn [res_bind]; [discriminate |].
  destruct d as [z |]; cbn [attr_real res_bind]; [| discriminate].
  destruct (Req_dec_T S 0); cbn [res_bind]; [discriminate |].
  now intros [= <-].
Qed.

(** The permittivity of a built object is a row of the dielectric table. *)
Lemma COAX_built_eps (self : COAX.t) :
  COAX_built mu_0 epsilon_0 self ->
  exists er tand, 0 < er /\ 0 <= tand /\
    COAX.eps self = Some (complex (er * epsilon_0) (- (er * epsilon_0 * tand))).
Proof.
  intros (a & b & m & d & H).
  pose proof (COAX_init_eps _ _ _ _ _ H) as E.
  destruct (COAX_init_inv _ _ _ _ _ _ _ H) as (_ & _ & _ & _ & Hd).
  destruct (dielec_known epsilon_0 d Hd) as (er & tand & H1 & H2 & E2).
  rewrite E2 in E. cbn [fst] in E. injection E as E. eauto.
Qed.

Lemma TWWG_built_eps (self : TWWG.t) :
  TWWG_built mu_0 epsilon_0 self ->
  exists er tand, 0 < er /\ 0 <= tand /\
    TWWG.eps self = Some (complex (er * epsilon_0) (- (er * epsilon_0 * tand))).
Proof.
  intros (S & a & m & d & H).
  pose proof (TWWG_init_eps _ _ _ _ _ H) as E.
  destruct (TWWG_init_inv _ _ _ _ _ _ _ H) as (_ & _ & _ & _ & Hd).
  destruct (dielec_known epsilon_0 d Hd) as (er & tand & H1 & H2 & E2).
  rewrite E2 in E. cbn [fst] in E. injection E as E. eauto.
Qed.

Lemma PPWG_built_eps (self : PPWG.t) :
  PPWG_built mu_0 epsilon_0 self ->
  exists er tand, 0 < er /\ 0 <= tand /\
    PPWG.eps self = Some (complex (er * epsilon_0) (- (er * epsilon_0 * tand))).
Proof.
  intros (S & T & m & d & H).
  pose proof (PPWG_init_eps _ _ _ _ _ H) as E.
  destruct (PPWG_init_inv _ _ _ _ _ _ _ H) as (_ & _ & _ & _ & Hd).
  destruct (dielec_known epsilon_0 d Hd) as (er & tand & H1 & H2 & E2).
  rewrite E2 in E. cbn [fst] in E. injection E as E. eauto.
Qed.

(** X7.  In every object a constructor returns, whatever the geometry,
    L C = mu_0 eps', eps' the real part of the stored permittivity. *)
Theorem LC_product_is_mu_eps :
  (forall self, COAX_built mu_0 epsilon_0 self ->
     exists z, COAX.eps self = Some z /\
               COAX.L self * COAX.C self = mu_0 * real z) /\
  (forall self, TWWG_built mu_0 epsilon_0 self ->
     exists z, TWWG.eps self = Some z /\
               TWWG.L self * TWWG.C self = mu_0 * real z) /\
  (forall self, PPWG_built mu_0 epsilon_0 self ->
     exists z, PPWG.eps self = Some z /\
               PPWG.L self * PPWG.C self = mu_0 * real z).
Proof.
  pose proof two_pi_neq_0 as H2pi. pose proof PI_RGT_0 as Hpi.
  split; [| split]; intros self Hb.
  - destruct (COAX_built_inv _ _ _ Hb)
      as (_ & _ & Hl & Hmu & HL & (z & Hz & HC) & _).
    exists z. split; [assumption |]. rewrite HL, HC, Hmu. field.
    split; [assumption | lra].
  - destruct (TWWG_built_inv _ _ _ Hb)
      as (_ & _ & Hl & Hmu & HL & (z & Hz & HC) & _).
    exists z. split; [assumption |]. rewrite HL, HC, Hmu. field.
    split; [assumption | lra].
  - destruct (PPWG_built_inv _ _ _ Hb)
      as (HS & HT & Hmu & HL & (z & Hz & HC) & _).
    exists z. split; [assumption |]. rewrite HL, HC, Hmu. field.
    split; assumption.
Qed.

End BuiltObjects.

Lemma LC_product_is_mu_eps_witness :
  exists self z,
    fst (TWWG.__init__ mu_0_2018 epsilon_0_2018 3.5e-3 1e-3 "Cu" "vac") = inr self /\
    TWWG.eps self = Some z /\
    TWWG.L self * TWWG.C self = mu_0_2018 * real z.
Proof.
  destruct example_twwg as (self & Hi & _).
  destruct (LC_product_is_mu_eps mu_0_2018 epsilon_0_2018) as (_ & H & _).
  destruct (H self) as (z & Hz & HLC).
  - now exists 3.5e-3, 1e-3, "Cu", "vac".
  - exists self, z. auto.
Defined.

Lemma div_sign (x y : R) :
  0 < x -> (0 < y -> 0 < x / y) /\ (y < 0 -> x / y < 0).
Proof.
  intros Hx. split; intros Hy.
  - now apply Rdiv_lt_0_compat.
  - assert (0 < x / - y) by (apply Rdiv_lt_0_compat; lra).
    replace (x / y) with (- (x / - y)) by (field; lra). lra.
Qed.

Lemma mul_div_sign (x y z : R) :
  0 < x -> z <> 0 ->
  (0 < y / z -> 0 < x * y / z) /\ (y / z < 0 -> x * y / z < 0).
Proof.
  intros Hx Hz.
  replace (x * y / z) with (x * (y / z)) by (field; assumption).
  split; intros Hy; nra.
Qed.

Section StaticSigns.

Variables mu_0 epsilon_0 : R.

(** X8.  With positive mu_0 and epsilon_0, the static parameters of a
    built object have the sign its geometry gives them: a coaxial object has
    positive L and C when b/a > 1 and negative L and C when b/a < 1
    (swapped radii are accepted); a two-wire object always has positive L
    and C; a parallel-plate object has L and C of the sign of S/T. *)
Theorem static_parameter_signs :
  0 < mu_0 -> 0 < epsilon_0 ->
  (forall self, COAX_built mu_0 epsilon_0 self ->
     (1 < COAX.b self / COAX.a self -> 0 < COAX.L self /\ 0 < COAX.C self) /\
     (COAX.b self / COAX.a self < 1 -> COAX.L self < 0 /\ COAX.C self < 0)) /\
  (forall self, TWWG_built mu_0 epsilon_0 self ->
     0 < TWWG.L self /\ 0 < TWWG.C self) /\
  (forall self, PPWG_built mu_0 epsilon_0 self ->
     (0 < PPWG.S self / PPWG.T self -> 0 < PPWG.L self /\ 0 < PPWG.C self) /\
     (PPWG.S self / PPWG.T self < 0 -> PPWG.L self < 0 /\ PPWG.C self < 0)).
Proof.
  intros Hmu He. pose proof PI_RGT_0 as Hpi.
  split; [| split]; intros self Hb.
  - destruct (COAX_built_eps _ _ _ Hb) as (er & tand & Her & _ & Ez).
    destruct (COAX_built_inv _ _ _ Hb)
      as (_ & Hq & Hl & Hm & HL & (z & Hz & HC) & _).
    rewrite Ez in Hz. injection Hz as <-. cbn [real] in HC.
    assert (Hez : 0 < er * epsilon_0) by now apply Rmult_lt_0_compat.
    assert (Hn : 0 < 2 * PI * (er * epsilon_0)) by nra.
    rewrite HL, HC, Hm.
    replace (1 * mu_0 * ln (COAX.b self / COAX.a self) / (2 * PI))
      with (mu_0 / (2 * PI) * ln (COAX.b self / COAX.a self)) by (field; lra).
    assert (Hk : 0 < mu_0 / (2 * PI)) by (apply Rdiv_lt_0_compat; lra).
    split; intros Hr.
    + assert (0 < ln (COAX.b self / COAX.a self))
        by (rewrite <- ln_1; apply ln_increasing; lra).
      split; [nra | now apply div_sign].
    + assert (ln (COAX.b self / COAX.a self) < 0)
        by (rewrite <- ln_1; now apply ln_increasing).
      split; [nra | now apply div_sign].
  - destruct (TWWG_built_eps _ _ _ Hb) as (er & tand & Her & _ & Ez).
    destruct (TWWG_built_inv _ _ _ Hb)
      as (_ & Hq & Hl & Hm & HL & (z & Hz & HC) & _).
    rewrite Ez in Hz. injection Hz as <-. cbn [real] in HC.
    assert (Hez : 0 < er * epsilon_0) by now apply Rmult_lt_0_compat.
    assert (Hac : 0 < acosh (TWWG.S self / (2 * TWWG.a self))).
    { destruct Hq as [Hq | Hq]; [now apply acosh_pos |].
      exfalso. apply Hl. rewrite <- Hq. apply acosh_1. }
    rewrite HL, HC, Hm. split.
    + apply Rdiv_lt_0_compat; [nra | lra].
    + apply Rdiv_lt_0_compat; [nra | assumption].
  - destruct (PPWG_built_eps _ _ _ Hb) as (er & tand & Her & _ & Ez).
    destruct (PPWG_built_inv _ _ _ Hb)
      as (HS & HT & Hm & HL & (z & Hz & HC) & _).
    rewrite Ez in Hz. injection Hz as <-. cbn [real] in HC.
    assert (Hez : 0 < er * epsilon_0) by now apply Rmult_lt_0_compat.
    assert (Hinv : PPWG.T self / PPWG.S self = / (PPWG.S self / PPWG.T self))
      by (field; split; assumption).
    rewrite HL, HC, Hm. rewrite Rmult_1_l.
    split; intros Hr.
    + split; [now apply mul_div_sign |].
      apply mul_div_sign; [assumption | assumption |].
      rewrite Hinv. now apply Rinv_0_lt_compat.
    + split; [now apply mul_div_sign |].
      apply mul_div_sign; [assumption | assumption |].
      rewrite Hinv. now apply Rinv_lt_0_compat.
Qed.

End StaticSigns.

Lemma static_parameter_signs_witness :
  exists self,
    fst (COAX.__init__ mu_0_2018 epsilon_0_2018 4e-3 1e-3 "Cu" "vac") = inr self /\
    COAX.L self < 0 /\ COAX.C self < 0.
Proof.
  destruct (static_parameter_signs mu_0_2018 epsilon_0_2018) as (H & _);
    [unfold mu_0_2018; lra | unfold epsilon_0_2018; lra |].
  assert (Hi : exists self,
             fst (COAX.__init__ mu_0_2018 epsilon_0_2018 4e-3 1e-3 "Cu" "vac")
             = inr self /\ COAX.a self = 4e-3 /\ COAX.b self = 1e-3).
  { unfold COAX.__init__, py_bind, py_lift, pydiv, math_log.
    change (materials.cond "Cu") with (@inr exn _ (Some 5.813e7), @nil string).
    change (materials.dielec_const epsilon_0_2018 "vac")
      with (@inr exn _ (Some (complex (1 * epsilon_0_2018) 0)), @nil string).
    cbn [fst].
    destruct (Req_dec_T 4e-3 0); [lra |]. cbn [res_bind].
    destruct (Rle_dec (1e-3 / 4e-3) 0); [lra |]. cbn [res_bind attr_real].
    destruct (Req_dec_T (ln (1e-3 / 4e-3)) 0) as [E | _].
    - apply ln_zero_iff in E; lra.
    - cbn [res_bind]. eexists. split; [reflexivity |]. split; reflexivity. }
  destruct Hi as (self & Hi & Ea & Eb). exists self. split; [exact Hi |].
  destruct (H self) as (_ & Hneg).
  - now exists 4e-3, 1e-3, "Cu", "vac".
  - apply Hneg. rewrite Ea, Eb. lra.
Defined.

(** ** wg.py: the queries away from the valid range *)

Lemma Cmul_comm (u v : Cplx) : Cmul u v = Cmul v u.
Proof. unfold Cmul. f_equal; ring. Qed.

Lemma Cmul_assoc (u v w : Cplx) : Cmul u (Cmul v w) = Cmul (Cmul u v) w.
Proof. unfold Cmul. cbn [real imag]. f_equal; ring. Qed.

Lemma Cdiv_mul (u v : Cplx) : v <> complex 0 0 -> Cmul (Cdiv u v) v = u.
Proof.
  destruct u as [a b], v as [c d]. intros Hv.
  assert (Hd : c * c + d * d <> 0).
  { intros E. apply Hv. assert (c = 0) by nra. assert (d = 0) by nra.
    now subst. }
  unfold Cmul, Cdiv. cbn [real imag]. f_equal; field; assumption.
Qed.

Section AnyClassMore.

Variable S : Type.
Variable rlgc : S -> nd R -> res locals.
Variables L C : S -> R.

Local Abbreviation get_z0 := (query_z0 rlgc L C).
Local Abbreviation get_gamma := (query_gamma rlgc L C).
Local Abbreviation get_alpha := (query_part np_real get_gamma).
Local Abbreviation get_beta := (query_part np_imag get_gamma).

Lemma queries_all_raise (self : S) (freq : nd R) (e : exn) :
  rlgc self freq = inl e ->
  all_raise get_z0 get_gamma get_alpha get_beta self freq e.
Proof.
  intros H. unfold all_raise.
  rewrite !query_part_run, query_z0_run, query_gamma_run, H.
  repeat split.
Qed.

Section AnyObjectMore.

Variable self : S.
Variables fRs fR : R -> option R.
Variable fG : R -> R.

Hypothesis rlgc_scalar : forall f,
  rlgc self (Scalar f)
  = inr (Scalar (2 * PI * f), Scalar (fRs f), Scalar (fR f), Scalar (Some (fG f))).

Lemma queries_all_nan (f : R) :
  fR f = None -> all_nan get_z0 get_gamma get_alpha get_beta self f.
Proof.
  intros H. unfold all_nan.
  rewrite !query_part_run,
    (get_z0_scalar _ rlgc L C self fRs fR fG rlgc_scalar),
    (get_gamma_scalar _ rlgc L C self fRs fR fG rlgc_scalar), H.
  repeat split.
Qed.

Lemma z0_finite (f r : R) :
  fR f = Some r -> 2 * PI * f * C self <> 0 ->
  impedance_equation rlgc L C get_z0 self f.
Proof.
  intros Hr Hc.
  set (a := complex r (2 * PI * f * L self)).
  set (b := complex (fG f) (2 * PI * f * C self)).
  assert (Hb : b <> complex 0 0).
  { unfold b. intros [= _ E]. contradiction. }
  exists (Scalar (fRs f)), r, (fG f), (Csqrt (Cdiv a b)).
  split; [now rewrite rlgc_scalar, Hr |]. split; [| split].
  - rewrite (get_z0_scalar _ rlgc L C self fRs fR fG rlgc_scalar), Hr.
    unfold z0_at, plus_jw, np_add_c, option_map. rewrite !add_jw.
    fold a b. unfold np_cdiv.
    destruct (Czero_dec b); [contradiction | reflexivity].
  - rewrite Csqrt_sqr. fold b. now apply Cdiv_mul.
  - apply Csqrt_principal.
Qed.

Lemma z0_times_gamma (f r : R) :
  fR f = Some r -> 2 * PI * f * C self <> 0 ->
  impedance_times_gamma rlgc L get_z0 get_gamma self f.
Proof.
  intros Hr Hc.
  set (a := complex r (2 * PI * f * L self)).
  set (b := complex (fG f) (2 * PI * f * C self)).
  assert (Hb : b <> complex 0 0).
  { unfold b. intros [= _ E]. contradiction. }
  exists (Scalar (fRs f)), r, (fG f), (Csqrt (Cdiv a b)), (Csqrt (Cmul a b)).
  split; [now rewrite rlgc_scalar, Hr |]. split; [| split].
  - rewrite (get_z0_scalar _ rlgc L C self fRs fR fG rlgc_scalar), Hr.
    unfold z0_at, plus_jw, np_add_c, option_map. rewrite !add_jw.
    fold a b. unfold np_cdiv.
    destruct (Czero_dec b); [contradiction | reflexivity].
  - rewrite (get_gamma_scalar _ rlgc L C self fRs fR fG rlgc_scalar), Hr.
    unfold gamma_at, plus_jw, np_add_c, option_map. rewrite !add_jw.
    reflexivity.
  - fold a.
    set (z := Csqrt (Cdiv a b)). set (g := Csqrt (Cmul a b)).
    assert (Hz : Cmul z z = Cdiv a b) by apply Csqrt_sqr.
    assert (Hg : Cmul g g = Cmul a b) by apply Csqrt_sqr.
    replace (Cmul (Cmul z g) (Cmul z g)) with (Cmul (Cmul z z) (Cmul g g)).
    + rewrite Hz, Hg. rewrite (Cmul_comm a b), Cmul_assoc.
      now rewrite Cdiv_mul.
    + rewrite <- !Cmul_assoc. f_equal.
      rewrite !Cmul_assoc. rewrite (Cmul_comm z g). reflexivity.
Qed.

End AnyObjectMore.

End AnyClassMore.

Lemma Rs_at_negative (mu s f : R) :
  0 < mu -> 0 < s -> f < 0 -> Rs_at mu s f = None.
Proof.
  intros Hmu Hs Hf. unfold Rs_at, np_sqrt.
  destruct (Rlt_dec (2 * PI * f * mu / (2 * s)) 0) as [_ | H]; [reflexivity |].
  exfalso. apply H. pose proof PI_RGT_0 as Hpi.
  assert (0 < 2 * PI * - f * mu).
  { apply Rmult_lt_0_compat; [apply Rmult_lt_0_compat |]; lra. }
  assert (0 < 2 * PI * - f * mu / (2 * s)) by (apply Rdiv_lt_0_compat; lra).
  replace (2 * PI * f * mu / (2 * s)) with (- (2 * PI * - f * mu / (2 * s)))
    by (field; lra).
  lra.
Qed.

Lemma div_nonzero (x y : R) : x <> 0 -> y <> 0 -> x / y <> 0.
Proof.
  intros Hx Hy. unfold Rdiv. apply Rmult_integral_contrapositive.
  split; [assumption | now apply Rinv_neq_0_compat].
Qed.

Section OutOfRange.

Variables mu_0 epsilon_0 : R.

Lemma COAX_R_finite (self : COAX.t) (f : R) :
  0 <= mu_0 -> 0 <= f ->
  COAX_built mu_0 epsilon_0 self -> COAX.sigma self <> None ->
  exists s z r,
    COAX_inv mu_0 self /\ COAX.sigma self = Some s /\ COAX.eps self = Some z /\
    COAX_R_at self s f = Some r.
Proof.
  intros Hmu0 Hf Hb Hn. pose proof (COAX_built_inv _ _ _ Hb) as I.
  destruct (sigma_some _ Hn) as [s Hs].
  destruct (COAX_built_eps _ _ _ Hb) as (er & tand & _ & _ & Hz).
  assert (Hmu : COAX.mu self = 1 * mu_0) by (unfold COAX_inv in I; tauto).
  assert (Hs0 : 0 < s) by (unfold COAX_inv in I; apply I; assumption).
  assert (HRs : Rs_at (COAX.mu self) s f
                = Some (sqrt (2 * PI * f * COAX.mu self / (2 * s)))).
  { apply Rs_at_finite; [rewrite Hmu; lra | assumption | assumption]. }
  eexists s, _, _. split; [exact I |]. split; [exact Hs |].
  split; [exact Hz |].
  apply COAX_R_at_finite; exact HRs.
Qed.

Lemma COAX_R_nan (self : COAX.t) (f : R) :
  0 < mu_0 -> f < 0 ->
  COAX_built mu_0 epsilon_0 self -> COAX.sigma self <> None ->
  exists s z,
    COAX_inv mu_0 self /\ COAX.sigma self = Some s /\ COAX.eps self = Some z /\
    COAX_R_at self s f = None.
Proof.
  intros Hmu0 Hf Hb Hn. pose proof (COAX_built_inv _ _ _ Hb) as I.
  destruct (sigma_some _ Hn) as [s Hs].
  destruct (COAX_built_eps _ _ _ Hb) as (er & tand & _ & _ & Hz).
  assert (Hmu : COAX.mu self = 1 * mu_0) by (unfold COAX_inv in I; tauto).
  assert (Hs0 : 0 < s) by (unfold COAX_inv in I; apply I; assumption).
  eexists s, _. split; [exact I |]. split; [exact Hs |]. split; [exact Hz |].
  unfold COAX_R_at. rewrite Rs_at_negative; [reflexivity | | assumption | assumption].
  rewrite Hmu. lra.
Qed.

Lemma COAX_C_nonzero (self : COAX.t) :
  epsilon_0 <> 0 -> COAX_built mu_0 epsilon_0 self -> COAX.C self <> 0.
Proof.
  intros He Hb. pose proof PI_RGT_0 as Hpi.
  destruct (COAX_built_eps _ _ _ Hb) as (er & tand & Her & _ & Ez).
  assert (Hez : er * epsilon_0 <> 0) by (apply Rmult_integral_contrapositive; split; lra).
  destruct (COAX_built_inv _ _ _ Hb) as (_ & _ & Hl & _ & _ & (z & Hz & HC) & _).
  rewrite Ez in Hz. injection Hz as <-. cbn [real] in HC. rewrite HC.
  apply div_nonzero; [| assumption].
  apply Rmult_integral_contrapositive. split; [lra | assumption].
Qed.

Lemma TWWG_R_finite (self : TWWG.t) (f : R) :
  0 <= mu_0 -> 0 <= f ->
  TWWG_built mu_0 epsilon_0 self -> TWWG.sigma self <> None ->
  exists s z r,
    TWWG_inv mu_0 self /\ TWWG.sigma self = Some s /\ TWWG.eps self = Some z /\
    TWWG_R_at self s f = Some r.
Proof.
  intros Hmu0 Hf Hb Hn. pose proof (TWWG_built_inv _ _ _ Hb) as I.
  destruct (sigma_some _ Hn) as [s Hs].
  destruct (TWWG_built_eps _ _ _ Hb) as (er & tand & _ & _ & Hz).
  assert (Hmu : TWWG.mu self = 1 * mu_0) by (unfold TWWG_inv in I; tauto).
  assert (Hs0 : 0 < s) by (unfold TWWG_inv in I; apply I; assumption).
  assert (HRs : Rs_at (TWWG.mu self) s f
                = Some (sqrt (2 * PI * f * TWWG.mu self / (2 * s)))).
  { apply Rs_at_finite; [rewrite Hmu; lra | assumption | assumption]. }
  eexists s, _, _. split; [exact I |]. split; [exact Hs |].
  split; [exact Hz |].
  apply TWWG_R_at_finite; [unfold TWWG_inv in I; tauto | exact HRs].
Qed.

Lemma TWWG_R_nan (self : TWWG.t) (f : R) :
  0 < mu_0 -> f < 0 ->
  TWWG_built mu_0 epsilon_0 self -> TWWG.sigma self <> None ->
  exists s z,
    TWWG_inv mu_0 self /\ TWWG.sigma self = Some s /\ TWWG.eps self = Some z /\
    TWWG_R_at self s f = None.
Proof.
  intros Hmu0 Hf Hb Hn. pose proof (TWWG_built_inv _ _ _ Hb) as I.
  destruct (sigma_some _ Hn) as [s Hs].
  destruct (TWWG_built_eps _ _ _ Hb) as (er & tand & _ & _ & Hz).
  assert (Hmu : TWWG.mu self = 1 * mu_0) by (unfold TWWG_inv in I; tauto).
  assert (Hs0 : 0 < s) by (unfold TWWG_inv in I; apply I; assumption).
  eexists s, _. split; [exact I |]. split; [exact Hs |]. split; [exact Hz |].
  unfold TWWG_R_at. rewrite Rs_at_negative; [reflexivity | | assumption | assumption].
  rewrite Hmu. lra.
Qed.

Lemma TWWG_C_nonzero (self : TWWG.t) :
  epsilon_0 <> 0 -> TWWG_built mu_0 epsilon_0 self -> TWWG.C self <> 0.
Proof.
  intros He Hb. pose proof PI_RGT_0 as Hpi.
  destruct (TWWG_built_eps _ _ _ Hb) as (er & tand & Her & _ & Ez).
  assert (Hez : er * epsilon_0 <> 0) by (apply Rmult_integral_contrapositive; split; lra).
  destruct (TWWG_built_inv _ _ _ Hb) as (_ & _ & Hl & _ & _ & (z & Hz & HC) & _).
  rewrite Ez in Hz. injection Hz as <-. cbn [real] in HC. rewrite HC.
  apply div_nonzero; [| assumption].
  apply Rmult_integral_contrapositive. split; [lra | assumption].
Qed.

Lemma PPWG_R_finite (self : PPWG.t) (f : R) :
  0 <= mu_0 -> 0 <= f ->
  PPWG_built mu_0 epsilon_0 self -> PPWG.sigma self <> None ->
  exists s z r,
    PPWG_inv mu_0 self /\ PPWG.sigma self = Some s /\ PPWG.eps self = Some z /\
    PPWG_R_at self s f = Some r.
Proof.
  intros Hmu0 Hf Hb Hn. pose proof (PPWG_built_inv _ _ _ Hb) as I.
  destruct (sigma_some _ Hn) as [s Hs].
  destruct (PPWG_built_eps _ _ _ Hb) as (er & tand & _ & _ & Hz).
  assert (Hmu : PPWG.mu self = 1 * mu_0) by (unfold PPWG_inv in I; tauto).
  assert (Hs0 : 0 < s) by (unfold PPWG_inv in I; apply I; assumption).
  assert (HRs : Rs_at (PPWG.mu self) s f
                = Some (sqrt (2 * PI * f * PPWG.mu self / (2 * s)))).
  { apply Rs_at_finite; [rewrite Hmu; lra | assumption | assumption]. }
  eexists s, _, _. split; [exact I |]. split; [exact Hs |].
  split; [exact Hz |].
  apply PPWG_R_at_finite; [unfold PPWG_inv in I; tauto | exact HRs].
Qed.

Lemma PPWG_R_nan (self : PPWG.t) (f : R) :
  0 < mu_0 -> f < 0 ->
  PPWG_built mu_0 epsilon_0 self -> PPWG.sigma self <> None ->
  exists s z,
    PPWG_inv mu_0 self /\ PPWG.sigma self = Some s /\ PPWG.eps self = Some z /\
    PPWG_R_at self s f = None.
Proof.
  intros Hmu0 Hf Hb Hn. pose proof (PPWG_built_inv _ _ _ Hb) as I.
  destruct (sigma_some _ Hn) as [s Hs].
  destruct (PPWG_built_eps _ _ _ Hb) as (er & tand & _ & _ & Hz).
  assert (Hmu : PPWG.mu self = 1 * mu_0) by (unfold PPWG_inv in I; tauto).
  assert (Hs0 : 0 < s) by (unfold PPWG_inv in I; apply I; assumption).
  eexists s, _. split; [exact I |]. split; [exact Hs |]. split; [exact Hz |].
  unfold PPWG_R_at. rewrite Rs_at_negative; [reflexivity | | assumption | assumption].
  rewrite Hmu. lra.
Qed.

Lemma PPWG_C_nonzero (self : PPWG.t) :
  epsilon_0 <> 0 -> PPWG_built mu_0 epsilon_0 self -> PPWG.C self <> 0.
Proof.
  intros He Hb. pose proof PI_RGT_0 as Hpi.
  destruct (PPWG_built_eps _ _ _ Hb) as (er & tand & Her & _ & Ez).
  assert (Hez : er * epsilon_0 <> 0) by (apply Rmult_integral_contrapositive; split; lra).
  destruct (PPWG_built_inv _ _ _ Hb) as (HS & HT & _ & _ & (z & Hz & HC) & _).
  rewrite Ez in Hz. injection Hz as <-. cbn [real] in HC. rewrite HC.
  apply div_nonzero; [| assumption].
  apply Rmult_integral_contrapositive. split; assumption.
Qed.

End OutOfRange.

Section QueryEdges.

Variables mu_0 epsilon_0 : R.

(** X9.  An object built with an unrecognised conductor name fails at its
    first query: each of the four queries raises [TypeError] (at
    [2*self.sigma]) for every frequency argument, scalar or array. *)
Theorem unrecognised_conductor_query_raises :
  (forall a b metal dielec self freq,
     ~ recognised cond_names metal ->
     fst (COAX.__init__ mu_0 epsilon_0 a b metal dielec) = inr self ->
     all_raise COAX.get_z0 COAX.get_gamma COAX.get_alpha COAX.get_beta
               self freq TypeError) /\
  (forall S a metal dielec self freq,
     ~ recognised cond_names metal ->
     fst (TWWG.__init__ mu_0 epsilon_0 S a metal dielec) = inr self ->
     all_raise TWWG.get_z0 TWWG.get_gamma TWWG.get_alpha TWWG.get_beta
               self freq TypeError) /\
  (forall S T metal dielec self freq,
     ~ recognised cond_names metal ->
     fst (PPWG.__init__ mu_0 epsilon_0 S T metal dielec) = inr self ->
     all_raise PPWG.get_z0 PPWG.get_gamma PPWG.get_alpha PPWG.get_beta
               self freq TypeError).
Proof.
  split; [| split]; intros x y metal dielec self freq Hn Hi.
  - destruct (COAX_init_inv _ _ _ _ _ _ _ Hi) as (_ & _ & _ & Hs & _).
    apply (queries_all_raise _ COAX.rlgc COAX.L COAX.C).
    apply COAX_rlgc_none. now apply Hs.
  - destruct (TWWG_init_inv _ _ _ _ _ _ _ Hi) as (_ & _ & _ & Hs & _).
    apply (queries_all_raise _ TWWG.rlgc TWWG.L TWWG.C).
    apply TWWG_rlgc_none. now apply Hs.
  - destruct (PPWG_init_inv _ _ _ _ _ _ _ Hi) as (_ & _ & _ & Hs & _).
    apply (queries_all_raise _ PPWG.rlgc PPWG.L PPWG.C).
    apply PPWG_rlgc_none. now apply Hs.
Qed.

(** X10.  With a positive mu_0, on an object built with a recognised
    conductor, a negative frequency is not refused: [np.sqrt] of the
    negative w mu / (2 sigma) gives [nan], and each of the four queries
    returns a non-finite value without raising. *)
Theorem negative_frequency_gives_nan :
  0 < mu_0 ->
  forall f, f < 0 ->
    (forall self, COAX_built mu_0 epsilon_0 self -> COAX.sigma self <> None ->
       all_nan COAX.get_z0 COAX.get_gamma COAX.get_alpha COAX.get_beta self f) /\
    (forall self, TWWG_built mu_0 epsilon_0 self -> TWWG.sigma self <> None ->
       all_nan TWWG.get_z0 TWWG.get_gamma TWWG.get_alpha TWWG.get_beta self f) /\
    (forall self, PPWG_built mu_0 epsilon_0 self -> PPWG.sigma self <> None ->
       all_nan PPWG.get_z0 PPWG.get_gamma PPWG.get_alpha PPWG.get_beta self f).
Proof.
  intros Hmu f Hf. split; [| split]; intros self Hb Hn.
  - destruct (COAX_R_nan mu_0 epsilon_0 self f Hmu Hf Hb Hn)
      as (s & z & I & Hs & Hz & HR).
    exact (queries_all_nan _ COAX.rlgc COAX.L COAX.C self _ _ _
             (fun f => COAX_rlgc_scalar mu_0 self s z f I Hs Hz) f HR).
  - destruct (TWWG_R_nan mu_0 epsilon_0 self f Hmu Hf Hb Hn)
      as (s & z & I & Hs & Hz & HR).
    exact (queries_all_nan _ TWWG.rlgc TWWG.L TWWG.C self _ _ _
             (fun f => TWWG_rlgc_scalar mu_0 self s z f I Hs Hz) f HR).
  - destruct (PPWG_R_nan mu_0 epsilon_0 self f Hmu Hf Hb Hn)
      as (s & z & I & Hs & Hz & HR).
    exact (queries_all_nan _ PPWG.rlgc PPWG.L PPWG.C self _ _ _
             (fun f => PPWG_rlgc_scalar mu_0 self s z f I Hs Hz) f HR).
Qed.

Lemma w_C_nonzero (f c : R) : 0 < f -> c <> 0 -> 2 * PI * f * c <> 0.
Proof.
  intros Hf Hc. pose proof PI_RGT_0.
  apply Rmult_integral_contrapositive. split; [nra | assumption].
Qed.

(** X11.  With mu_0 >= 0 and a non-zero epsilon_0, on an object built with
    a recognised conductor, [get_z0] at a frequency f > 0 returns a finite
    complex number z0 in the closed right half plane, and
    z0 z0 (G + jwC) = R + jwL for the values R and G of the query's locals
    and w = 2 pi f. *)
Theorem impedance_at_positive_frequency :
  0 <= mu_0 -> epsilon_0 <> 0 ->
  forall f, 0 < f ->
    (forall self, COAX_built mu_0 epsilon_0 self -> COAX.sigma self <> None ->
       impedance_equation COAX.rlgc COAX.L COAX.C COAX.get_z0 self f) /\
    (forall self, TWWG_built mu_0 epsilon_0 self -> TWWG.sigma self <> None ->
       impedance_equation TWWG.rlgc TWWG.L TWWG.C TWWG.get_z0 self f) /\
    (forall self, PPWG_built mu_0 epsilon_0 self -> PPWG.sigma self <> None ->
       impedance_equation PPWG.rlgc PPWG.L PPWG.C PPWG.get_z0 self f).
Proof.
  intros Hmu He f Hf. split; [| split]; intros self Hb Hn.
  - destruct (COAX_R_finite mu_0 epsilon_0 self f Hmu ltac:(lra) Hb Hn)
      as (s & z & r & I & Hs & Hz & HR).
    exact (z0_finite _ COAX.rlgc COAX.L COAX.C self _ _ _
             (fun f => COAX_rlgc_scalar mu_0 self s z f I Hs Hz) f r HR
             (w_C_nonzero f _ Hf (COAX_C_nonzero mu_0 epsilon_0 self He Hb))).
  - destruct (TWWG_R_finite mu_0 epsilon_0 self f Hmu ltac:(lra) Hb Hn)
      as (s & z & r & I & Hs & Hz & HR).
    exact (z0_finite _ TWWG.rlgc TWWG.L TWWG.C self _ _ _
             (fun f => TWWG_rlgc_scalar mu_0 self s z f I Hs Hz) f r HR
             (w_C_nonzero f _ Hf (TWWG_C_nonzero mu_0 epsilon_0 self He Hb))).
  - destruct (PPWG_R_finite mu_0 epsilon_0 self f Hmu ltac:(lra) Hb Hn)
      as (s & z & r & I & Hs & Hz & HR).
    exact (z0_finite _ PPWG.rlgc PPWG.L PPWG.C self _ _ _
             (fun f => PPWG_rlgc_scalar mu_0 self s z f I Hs Hz) f r HR
             (w_C_nonzero f _ Hf (PPWG_C_nonzero mu_0 epsilon_0 self He Hb))).
Qed.

(** X12.  With mu_0 >= 0 and a non-zero epsilon_0, on an object built with
    a recognised conductor, the answers z0 of [get_z0] and g of [get_gamma]
    at one frequency f > 0 are both finite and their product squares to the
    square of the series impedance: (z0 g)(z0 g) = (R + jwL)(R + jwL). *)
Theorem impedance_gamma_product :
  0 <= mu_0 -> epsilon_0 <> 0 ->
  forall f, 0 < f ->
    (forall self, COAX_built mu_0 epsilon_0 self -> COAX.sigma self <> None ->
       impedance_times_gamma COAX.rlgc COAX.L COAX.get_z0 COAX.get_gamma self f) /\
    (forall self, TWWG_built mu_0 epsilon_0 self -> TWWG.sigma self <> None ->
       impedance_times_gamma TWWG.rlgc TWWG.L TWWG.get_z0 TWWG.get_gamma self f) /\
    (forall self, PPWG_built mu_0 epsilon_0 self -> PPWG.sigma self <> None ->
       impedance_times_gamma PPWG.rlgc PPWG.L PPWG.get_z0 PPWG.get_gamma self f).
Proof.
  intros Hmu He f Hf. split; [| split]; intros self Hb Hn.
  - destruct (COAX_R_finite mu_0 epsilon_0 self f Hmu ltac:(lra) Hb Hn)
      as (s & z & r & I & Hs & Hz & HR).
    exact (z0_times_gamma _ COAX.rlgc COAX.L COAX.C self _ _ _
             (fun f => COAX_rlgc_scalar mu_0 self s z f I Hs Hz) f r HR
             (w_C_nonzero f _ Hf (COAX_C_nonzero mu_0 epsilon_0 self He Hb))).
  - destruct (TWWG_R_finite mu_0 epsilon_0 self f Hmu ltac:(lra) Hb Hn)
      as (s & z & r & I & Hs & Hz & HR).
    exact (z0_times_gamma _ TWWG.rlgc TWWG.L TWWG.C self _ _ _
             (fun f => TWWG_rlgc_scalar mu_0 self s z f I Hs Hz) f r HR
             (w_C_nonzero f _ Hf (TWWG_C_nonzero mu_0 epsilon_0 self He Hb))).
  - destruct (PPWG_R_finite mu_0 epsilon_0 self f Hmu ltac:(lra) Hb Hn)
      as (s & z & r & I & Hs & Hz & HR).
    exact (z0_times_gamma _ PPWG.rlgc PPWG.L PPWG.C self _ _ _
             (fun f => PPWG_rlgc_scalar mu_0 self s z f I Hs Hz) f r HR
             (w_C_nonzero f _ Hf (PPWG_C_nonzero mu_0 epsilon_0 self He Hb))).
Qed.

End QueryEdges.


Section ShuntConductanceGeneral.

Variables mu_0 epsilon_0 : R.


End ShuntConductanceGeneral.

(** ** The further properties on concrete lines *)

Lemma unrecognised_conductor_query_raises_witness :
  exists self,
    fst (COAX.__init__ mu_0_2018 epsilon_0_2018 1e-3 4e-3 "unobtainium" "vac")
    = inr self /\
    all_raise COAX.get_z0 COAX.get_gamma COAX.get_alpha COAX.get_beta
              self (Array [0.1e12; 3e12]) TypeError.
Proof.
  assert (Hn : ~ recognised cond_names "unobtainium")
    by (apply not_In_table; reflexivity).
  pose proof (COAX_init_ok mu_0_2018 epsilon_0_2018 1e-3 4e-3 "unobtainium" "vac"
                None (complex (1 * epsilon_0_2018) 0) _ []
                (cond_unknown _ Hn) eq_refl ltac:(lra) ltac:(lra)) as Hi.
  apply (f_equal fst) in Hi. cbn [fst] in Hi.
  eexists. split; [exact Hi |].
  destruct (unrecognised_conductor_query_raises mu_0_2018 epsilon_0_2018)
    as (H & _).
  exact (H _ _ _ _ _ _ Hn Hi).
Defined.

Lemma negative_frequency_gives_nan_witness :
  exists self,
    fst (COAX.__init__ mu_0_2018 epsilon_0_2018 1e-3 4e-3 "Cu" "vac") = inr self /\
    all_nan COAX.get_z0 COAX.get_gamma COAX.get_alpha COAX.get_beta
            self (-1e9).
Proof.
  destruct example_coax as (self & Hi & Hs). exists self. split; [exact Hi |].
  destruct (negative_frequency_gives_nan mu_0_2018 epsilon_0_2018
              ltac:(unfold mu_0_2018; lra) (-1e9) ltac:(lra)) as (H & _).
  apply H.
  - now exists 1e-3, 4e-3, "Cu", "vac".
  - rewrite Hs. discriminate.
Defined.

Lemma impedance_at_positive_frequency_witness :
  exists self,
    fst (TWWG.__init__ mu_0_2018 epsilon_0_2018 3.5e-3 1e-3 "Cu" "vac") = inr self /\
    impedance_equation TWWG.rlgc TWWG.L TWWG.C TWWG.get_z0 self 1e9.
Proof.
  destruct example_twwg as (self & Hi & Hs). exists self. split; [exact Hi |].
  destruct (impedance_at_positive_frequency mu_0_2018 epsilon_0_2018
              ltac:(unfold mu_0_2018; lra) ltac:(unfold epsilon_0_2018; lra)
              1e9 ltac:(lra)) as (_ & H & _).
  apply H.
  - now exists 3.5e-3, 1e-3, "Cu", "vac".
  - rewrite Hs. discriminate.
Defined.

Lemma impedance_gamma_product_witness :
  exists self,
    fst (PPWG.__init__ mu_0_2018 epsilon_0_2018 3e-3 3e-3 "Cu" "vac") = inr self /\
    impedance_times_gamma PPWG.rlgc PPWG.L PPWG.get_z0 PPWG.get_gamma self 1e9.
Proof.
  destruct example_ppwg as (self & Hi & Hs). exists self. split; [exact Hi |].
  destruct (impedance_gamma_product mu_0_2018 epsilon_0_2018
              ltac:(unfold mu_0_2018; lra) ltac:(unfold epsilon_0_2018; lra)
              1e9 ltac:(lra)) as (_ & _ & H).
  apply H.
  - now exists 3e-3, 3e-3, "Cu", "vac".
  - rewrite Hs. discriminate.
Defined.

